(** * Network monitor: correlation of request events into summaries

    A shallow embedding of the network-monitor utilities
    ([findHeader], [eventsToMap], [eventsByRequestId], [host], [name],
    [queryParams], [getDocumentType],
    [partialRequestsToCompleteSummaries], [contentType]) and the
    properties of the pipeline that joins request records with their
    events, filters the joined rows by resource type and orders them by
    execution point.

    Conventions of the embedding.
    - A JavaScript string is a [string]: a sequence of code units, each
      one an [ascii] (the code units 0..255).
    - A JavaScript [number] is a [float] (IEEE 754 binary64).
    - [undefined] is [None].
    - An exception is the [Throw] case of [result].
    - A plain object used as a [Record<string, T>] is the [gmap string T]
      of its own properties; reading a key goes through [Js.get], which
      falls back on the members that every plain object inherits from
      [Object.prototype]. *)

From Stdlib Require Import PrimFloat Ascii String ZArith Sorted Permutation ZifyNat.
From stdpp Require Import gmap strings list.

Local Open Scope string_scope.
Local Open Scope list_scope.

(** ** Exceptions *)

Inductive exn : Type :=
  | TypeError            (* thrown by [new URL(url)] on an unparseable url,
                            and by the spread of a value that is not iterable *)
  | InvalidPointFormat.  (* raised by the point comparator *)

Inductive result (A : Type) : Type :=
  | Ok (a : A)
  | Throw (e : exn).
Arguments Ok {A} a.
Arguments Throw {A} e.

#[global] Instance result_ret : MRet result := fun A a => Ok a.

#[global] Instance result_bind : MBind result := fun A B k m =>
  match m with
  | Ok a => k a
  | Throw e => Throw e
  end.

#[global] Instance result_fmap : FMap result := fun A B f m =>
  match m with
  | Ok a => Ok (f a)
  | Throw e => Throw e
  end.

(** [Array.prototype.map] with a callback that may throw is [mapM]: the
    elements are visited from left to right and the first exception
    escapes. *)

(** [Array.prototype.reduce] with an initial value and a callback that
    may throw. *)
Fixpoint reduce {A B : Type} (f : B -> A -> result B) (l : list A) (acc : B)
  : result B :=
  match l with
  | [] => Ok acc
  | x :: l' => acc' ← f acc x; reduce f l' acc'
  end.

(** ** JavaScript strings and plain objects *)

Module Js.

(** Truthiness of a string: only the empty string is falsy. *)
Definition truthy (s : string) : bool :=
  match s with
  | EmptyString => false
  | String _ _ => true
  end.

(** [o || d] for a string-or-undefined [o]. *)
Definition or_else (o : option string) (d : string) : string :=
  match o with
  | Some s => if truthy s then s else d
  | None => d
  end.

(** [String.prototype.toLowerCase] on one code unit below 256: the
    letters A-Z and the Latin-1 capitals U+00C0..U+00DE (U+00D7, the
    multiplication sign, apart) move up by 32. *)
Definition lower_unit (c : ascii) : ascii :=
  let n := N_of_ascii c in
  if ((65 <=? n) && (n <=? 90) ||
      (192 <=? n) && (n <=? 222) && negb (n =? 215))%N
  then ascii_of_N (n + 32)
  else c.

Fixpoint toLowerCase (s : string) : string :=
  match s with
  | EmptyString => EmptyString
  | String c s' => String (lower_unit c) (toLowerCase s')
  end.

(** [s.split(sep)] for a separator of one code unit: never empty. *)
Fixpoint split (sep : ascii) (s : string) : list string :=
  match s with
  | EmptyString => [EmptyString]
  | String c s' =>
      if Ascii.eqb c sep then EmptyString :: split sep s'
      else match split sep s' with
           | piece :: rest => String c piece :: rest
           | [] => [String c EmptyString]
           end
  end.

(** [hay.match(/needle/)] is truthy: [needle] occurs in [hay]. *)
Fixpoint includes (needle hay : string) : bool :=
  String.prefix needle hay ||
  match hay with
  | EmptyString => false
  | String _ hay' => includes needle hay'
  end.

(** Line terminators below 256, the code units [.] does not match. *)
Definition isLineTerminator (c : ascii) : bool :=
  Ascii.eqb c "010" || Ascii.eqb c "013".

(** The property names of [Object.prototype], which every plain object
    inherits. The member behind each name is a function, and behind
    [__proto__] the prototype object itself: a truthy value that is not
    iterable and has no enumerable own property. *)
Definition objectPrototypeKeys : list string :=
  ["constructor"; "hasOwnProperty"; "isPrototypeOf"; "propertyIsEnumerable";
   "toLocaleString"; "toString"; "valueOf"; "__proto__";
   "__defineGetter__"; "__defineSetter__"; "__lookupGetter__"; "__lookupSetter__"].

Definition inherited (key : string) : bool :=
  existsb (String.eqb key) objectPrototypeKeys.

(** The value of [o[key]]: an own property, an inherited member, or
    [undefined]. *)
Inductive member (T : Type) : Type :=
  | Own (v : T)
  | Inherited
  | Undefined.
Arguments Own {T} v.
Arguments Inherited {T}.
Arguments Undefined {T}.

(** [o[key]] for a plain object [o] with the own properties [own]. *)
Definition get {T : Type} (own : gmap string T) (key : string) : member T :=
  match own !! key with
  | Some v => Own v
  | None => if inherited key then Inherited else Undefined
  end.

End Js.

(** ** Protocol data *)

Module Header.
Record t : Type := mk { name : string; value : string }.
End Header.

Module TimeStampedPoint.
Record t : Type := mk { point : string; time : float }.
End TimeStampedPoint.

Module RequestOpenEvent.
Record t : Type := mk {
  requestUrl : string;
  requestMethod : string;
  requestHeaders : list Header.t;
}.
End RequestOpenEvent.

Module RequestResponseEvent.
Record t : Type := mk {
  responseStatus : float;
  responseHeaders : list Header.t;
}.
End RequestResponseEvent.

(** The four event kinds of the protocol that the specification lists,
    the keys of [RequestEventMap]. *)
Module Kind.
Inductive t : Type :=
  | request
  | response_body
  | request_body
  | response.

Definition eqb (a b : t) : bool :=
  match a, b with
  | request, request | response_body, response_body
  | request_body, request_body | response, response => true
  | _, _ => false
  end.
End Kind.

(** The payload of a body event is not read by this code: only its
    presence is. *)
Inductive RequestEvent : Type :=
  | Open (e : RequestOpenEvent.t)
  | RequestBody
  | ResponseHeaders (e : RequestResponseEvent.t)
  | ResponseBody.

(** [e.kind] *)
Definition kind (e : RequestEvent) : Kind.t :=
  match e with
  | Open _ => Kind.request
  | RequestBody => Kind.request_body
  | ResponseHeaders _ => Kind.response
  | ResponseBody => Kind.response_body
  end.

(** [RequestEventInfo], with the type of its [event] as a parameter:
    the input carries a [RequestEvent], the entries of a
    [RequestEventMap] carry the narrowed payload of their kind. *)
Module RequestEventInfo.
Record t (E : Type) : Type := mk {
  id : string;
  point : string;
  time : float;
  event : E;
}.
Arguments mk {E} _ _ _ _.
Arguments id {E} _.
Arguments point {E} _.
Arguments time {E} _.
Arguments event {E} _.

Definition with_event {E F : Type} (i : t E) (f : F) : t F :=
  mk (id i) (point i) (time i) f.
End RequestEventInfo.

Abbreviation EventInfo := (RequestEventInfo.t RequestEvent).

Module RequestInfo.
Record t : Type := mk {
  id : string;
  point : string;
  time : float;
  triggerPoint : option TimeStampedPoint.t;
}.
End RequestInfo.

(** ** Header utilities *)

(** [headers?.find(h => h.name.toLowerCase() === key)?.value] *)
Definition findHeader (headers : option (list Header.t)) (key : string)
  : option string :=
  match headers with
  | None => None
  | Some hs =>
      match List.find (fun h => String.eqb (Js.toLowerCase (Header.name h)) key) hs with
      | Some h => Some (Header.value h)
      | None => None
      end
  end.

(** The regular expression of [getDocumentType]: anchored at the start,
    a greedy capture group of any code units but line terminators,
    then one comma or semicolon. [match_chop s] is capture group 1 when
    the expression matches [s]: the greedy group runs up to the last
    comma or semicolon that no line terminator precedes. *)
Definition isParamDelimiter (c : ascii) : bool :=
  Ascii.eqb c "," || Ascii.eqb c ";".

Fixpoint match_chop (s : string) : option string :=
  match s with
  | EmptyString => None
  | String c s' =>
      if Js.isLineTerminator c then None
      else match match_chop s' with
           | Some g => Some (String c g)
           | None => if isParamDelimiter c then Some EmptyString else None
           end
  end.

Definition getDocumentType (headers : list Header.t) : string :=
  let contentType := Js.or_else (findHeader (Some headers) "content-type") "unknown" in
  (* chop off any charset or other extra data *)
  Js.or_else (match_chop contentType) contentType.

Module ContentType.
Inductive t : Type := json | text | other.
End ContentType.

Definition contentType (headers : list Header.t) : ContentType.t :=
  let contentType := getDocumentType headers in
  if String.prefix "application/json" contentType then ContentType.json
  else if String.prefix "text/" contentType then ContentType.text
  else ContentType.other.

(** ** Event grouper *)

(** [Partial<RequestEventMap>]: one optional entry per kind. *)
Module RequestEventMap.
Record t : Type := mk {
  request : option (RequestEventInfo.t RequestOpenEvent.t);
  response_body : option (RequestEventInfo.t unit);
  request_body : option (RequestEventInfo.t unit);
  response : option (RequestEventInfo.t RequestResponseEvent.t);
}.

Definition empty : t := mk None None None None.

(** [m[k] = e] for an event [e] of kind [k]. *)
Definition assign (m : t) (e : EventInfo) : t :=
  match RequestEventInfo.event e with
  | Open o =>
      mk (Some (RequestEventInfo.with_event e o))
         (response_body m) (request_body m) (response m)
  | RequestBody =>
      mk (request m) (response_body m)
         (Some (RequestEventInfo.with_event e tt)) (response m)
  | ResponseHeaders h =>
      mk (request m) (response_body m) (request_body m)
         (Some (RequestEventInfo.with_event e h))
  | ResponseBody =>
      mk (request m) (Some (RequestEventInfo.with_event e tt))
         (request_body m) (response m)
  end.

(** [m[k]], as the input event it was assigned from. *)
Definition lookup (k : Kind.t) (m : t) : option EventInfo :=
  match k with
  | Kind.request =>
      (fun i => RequestEventInfo.with_event i (Open (RequestEventInfo.event i)))
        <$> request m
  | Kind.response_body =>
      (fun i => RequestEventInfo.with_event i ResponseBody) <$> response_body m
  | Kind.request_body =>
      (fun i => RequestEventInfo.with_event i RequestBody) <$> request_body m
  | Kind.response =>
      (fun i => RequestEventInfo.with_event i (ResponseHeaders (RequestEventInfo.event i)))
        <$> response m
  end.
End RequestEventMap.

(** [keyBy(events, e => e.event.kind)] of lodash: the elements are
    assigned to their keys from left to right, so that the value of a
    key is the last element that generated it; a collection that is
    [undefined] gives the empty object. *)
Definition eventsToMap (events : option (list EventInfo)) : RequestEventMap.t :=
  match events with
  | None => RequestEventMap.empty
  | Some es => fold_left RequestEventMap.assign es RequestEventMap.empty
  end.

(** What [keyBy] iterates over when it is given the value of
    [eventsMap[id]]: the elements of an array; nothing for [undefined];
    for any other object its enumerable own properties, of which an
    inherited member has none. *)
Definition collectionOf (bucket : Js.member (list EventInfo))
  : option (list EventInfo) :=
  match bucket with
  | Js.Own es => Some es
  | Js.Inherited => Some []
  | Js.Undefined => None
  end.

(** The callback of the reduction:
    [acc[eventInfo.id] = [eventInfo, ...(acc[eventInfo.id] || [])]].
    The right-hand side is evaluated first. A bucket is an array, which
    is truthy and is spread; [undefined] gives way to the empty array;
    an inherited member is truthy and not iterable, so that spreading
    it throws a [TypeError] and nothing is assigned. *)
Definition pushEvent (acc : gmap string (list EventInfo)) (eventInfo : EventInfo)
  : result (gmap string (list EventInfo)) :=
  match Js.get acc (RequestEventInfo.id eventInfo) with
  | Js.Own bucket => Ok (<[RequestEventInfo.id eventInfo := eventInfo :: bucket]> acc)
  | Js.Undefined => Ok (<[RequestEventInfo.id eventInfo := [eventInfo]]> acc)
  | Js.Inherited => Throw TypeError
  end.

(** [events.reduce(..., {})] *)
Definition eventsByRequestId (events : list EventInfo)
  : result (gmap string (list EventInfo)) :=
  reduce pushEvent events ∅.

(** ** Resource types *)

(** [RequestType], the keys of [REQUEST_TYPES]. *)
Module RequestType.
Inductive t : Type :=
  | xhr | javascript | html | css | font | img
  | manifest | media | other | wasm | websocket.

#[global] Instance eq_dec : EqDecision t.
Proof. solve_decision. Defined.

Definition all : list t :=
  [xhr; javascript; html; css; font; img; manifest; media; other; wasm; websocket].

Definition to_nat (x : t) : nat :=
  match x with
  | xhr => 0 | javascript => 1 | html => 2 | css => 3 | font => 4 | img => 5
  | manifest => 6 | media => 7 | other => 8 | wasm => 9 | websocket => 10
  end.

Definition of_nat (n : nat) : option t := all !! n.

#[global] Instance countable : Countable t.
Proof. apply (inj_countable to_nat of_nat). by intros []. Defined.

(** The key as the string it is at run time. *)
Definition key (x : t) : string :=
  match x with
  | xhr => "xhr" | javascript => "javascript" | html => "html" | css => "css"
  | font => "font" | img => "img" | manifest => "manifest" | media => "media"
  | other => "other" | wasm => "wasm" | websocket => "websocket"
  end.

Definition of_key (s : string) : option t :=
  List.find (fun x => String.eqb (key x) s) all.
End RequestType.

(** [types.has(s)] for a [Set<RequestType>] and a string [s]. *)
Definition has (types : gset RequestType.t) (s : string) : bool :=
  match RequestType.of_key s with
  | Some x => bool_decide (x ∈ types)
  | None => false
  end.

(** ** Summaries *)

Module RequestSummary.
Record t : Type := mk {
  documentType : string;
  domain : string;
  end_ : float;
  hasResponseBody : bool;
  hasRequestBody : bool;
  id : string;
  method : string;
  name : string;
  point : TimeStampedPoint.t;
  queryParams : list (string * string);
  requestHeaders : list Header.t;
  responseHeaders : list Header.t;
  start : float;
  status : float;
  time : float;
  triggerPoint : option TimeStampedPoint.t;
  type : string;
  url : string;
}.
End RequestSummary.

(** The parts of a parsed [URL] that are read. *)
Module URL.
Record t : Type := mk {
  host : string;
  pathname : string;
  searchParams : list (string * string);
}.
End URL.

(** A parser for plain absolute URLs of the form
    scheme://host/path?query#fragment, with no credentials, port
    normalisation, dot segments or percent escapes: on such strings
    [new URL] of the platform returns these parts, and a string with no
    scheme is refused. It instantiates the parser in the examples. *)
Module PlainURL.
Definition isAlpha (c : ascii) : bool :=
  let n := N_of_ascii c in
  ((65 <=? n) && (n <=? 90) || (97 <=? n) && (n <=? 122))%N.

Definition isSchemeUnit (c : ascii) : bool :=
  let n := N_of_ascii c in
  isAlpha c || ((48 <=? n) && (n <=? 57))%N
  || Ascii.eqb c "+" || Ascii.eqb c "-" || Ascii.eqb c ".".

(** The longest prefix of code units that satisfy [p], and the rest. *)
Fixpoint span (p : ascii -> bool) (s : string) : string * string :=
  match s with
  | EmptyString => (EmptyString, EmptyString)
  | String c s' =>
      if p c then let (a, b) := span p s' in (String c a, b)
      else (EmptyString, s)
  end.

Definition noneOf (stops : list ascii) (c : ascii) : bool :=
  negb (existsb (Ascii.eqb c) stops).

Definition entry (piece : string) : string * string :=
  let (k, rest) := span (noneOf ["="%char]) piece in
  (k, match rest with
      | String _ v => v
      | EmptyString => EmptyString
      end).

Definition entries (query : string) : list (string * string) :=
  map entry (List.filter Js.truthy (Js.split "&" query)).

Definition parse (s : string) : option URL.t :=
  let (scheme, rest) := span isSchemeUnit s in
  match scheme, rest with
  | String c _, String ":" (String "/" (String "/" rest')) =>
      if isAlpha c then
        let (authority, tail) := span (noneOf ["/"; "?"; "#"]%char) rest' in
        let (path, tail') := span (noneOf ["?"; "#"]%char) tail in
        let query :=
          match tail' with
          | String "?" q => fst (span (noneOf ["#"%char]) q)
          | _ => EmptyString
          end in
        if Js.truthy authority then
          Some {| URL.host := authority;
                  URL.pathname := if Js.truthy path then path else "/";
                  URL.searchParams := entries query |}
        else None
      else None
  | _, _ => None
  end.
End PlainURL.

(** [Boolean(x)] for an object-or-undefined [x]. *)
Definition Boolean {A : Type} (x : option A) : bool :=
  match x with
  | Some _ => true
  | None => false
  end.

(** The type filter of the pipeline, on the derived type of a row. *)
Definition matchesTypes (types : gset RequestType.t) (type : string) : bool :=
  if bool_decide (size types = 0) then true
  else if has types type then true
  else if bool_decide (RequestType.xhr ∈ types) && Js.includes "json" type then true
  else if bool_decide (RequestType.font ∈ types)
          && (Js.includes "woff" type || Js.includes "ttf" type) then true
  else if bool_decide (RequestType.img ∈ types)
          && (Js.includes "svg" type || Js.includes "jpeg" type
              || Js.includes "png" type || Js.includes "gif" type) then true
  else false.

(** The callback of the last [filter]. *)
Definition keepRow (types : gset RequestType.t) (row : RequestSummary.t) : bool :=
  matchesTypes types (RequestSummary.type row).

(** ** Point comparator and sort *)

Definition isDigit (c : ascii) : bool :=
  let n := N_of_ascii c in ((48 <=? n) && (n <=? 57))%N.

Fixpoint allDigits (s : string) : bool :=
  match s with
  | EmptyString => true
  | String c s' => isDigit c && allDigits s'
  end.

(** A valid execution point: a non-empty string of decimal digits. *)
Definition validPoint (s : string) : bool := Js.truthy s && allDigits s.

(** Modelled from the spec: [compareNumericStrings] of [protocol/utils],
    which is not among the sources. The specification of the point
    comparator says: if the lengths differ the longer string is the
    greater; if they are equal the strings are compared
    lexicographically; an empty string or a string with a non-digit
    fails with an [InvalidPointFormat] condition. *)
Definition compareNumericStrings (a b : string) : result comparison :=
  if validPoint a && validPoint b then
    Ok (if Nat.ltb (String.length a) (String.length b) then Lt
        else if Nat.ltb (String.length b) (String.length a) then Gt
        else String.compare a b)
  else Throw InvalidPointFormat.

(** [Array.prototype.sort(cmp)]: a stable sort, here by insertion; an
    exception of the comparator escapes. *)
Section Sort.
Context {A : Type} (cmp : A -> A -> result comparison).

Fixpoint insert_sorted (x : A) (l : list A) : result (list A) :=
  match l with
  | [] => Ok [x]
  | y :: l' =>
      c ← cmp x y;
      match c with
      | Gt => r ← insert_sorted x l'; mret (y :: r)
      | _ => mret (x :: l)
      end
  end.

Fixpoint sort (l : list A) : result (list A) :=
  match l with
  | [] => Ok []
  | x :: l' => s ← sort l'; insert_sorted x s
  end.
End Sort.

(** ** Request correlator *)

Section Correlator.

(** [new URL(url)]: the URL parser of the platform, [None] when it
    throws. *)
Variable new_URL : string -> option URL.t.

Definition parse (url : string) : result URL.t :=
  match new_URL url with
  | Some u => Ok u
  | None => Throw TypeError
  end.

Definition host (url : string) : result string :=
  u ← parse url; mret (URL.host u).

(** [.split("/").filter(f => f.length).pop() || ""] on the pathname *)
Definition name (url : string) : result string :=
  u ← parse url;
  mret (Js.or_else (last (List.filter Js.truthy (Js.split "/" (URL.pathname u)))) "").

Definition queryParams (url : string) : result (list (string * string)) :=
  u ← parse url; mret (URL.searchParams u).

(** [{ ...r, events: eventsToMap(eventsMap[r.id]) }] *)
Definition attach (eventsMap : gmap string (list EventInfo)) (r : RequestInfo.t)
  : RequestInfo.t * RequestEventMap.t :=
  (r, eventsToMap (collectionOf (Js.get eventsMap (RequestInfo.id r)))).

(** [!!r.events.request && !!r.events.response] *)
Definition isComplete (r : RequestInfo.t * RequestEventMap.t) : bool :=
  Boolean (RequestEventMap.request (snd r)) && Boolean (RequestEventMap.response (snd r)).

(** The callback that builds a summary. Reading [event] of an entry
    that is [undefined] throws a [TypeError]. *)
Definition summarize (row : RequestInfo.t * RequestEventMap.t)
  : result RequestSummary.t :=
  let (r, events) := row in
  match RequestEventMap.request events, RequestEventMap.response events with
  | Some request, Some response =>
      let requestEvent := RequestEventInfo.event request in
      let responseEvent := RequestEventInfo.event response in
      let documentType := getDocumentType (RequestResponseEvent.responseHeaders responseEvent) in
      let type := Js.or_else (Js.split "/" documentType !! 1%nat) documentType in
      domain ← host (RequestOpenEvent.requestUrl requestEvent);
      name ← name (RequestOpenEvent.requestUrl requestEvent);
      queryParams ← queryParams (RequestOpenEvent.requestUrl requestEvent);
      mret {|
        RequestSummary.documentType := documentType;
        RequestSummary.domain := domain;
        RequestSummary.end_ := RequestEventInfo.time response;
        RequestSummary.hasResponseBody := Boolean (RequestEventMap.response_body events);
        RequestSummary.hasRequestBody := Boolean (RequestEventMap.request_body events);
        RequestSummary.id := RequestInfo.id r;
        RequestSummary.method := RequestOpenEvent.requestMethod requestEvent;
        RequestSummary.name := name;
        RequestSummary.point :=
          {| TimeStampedPoint.point := RequestInfo.point r;
             TimeStampedPoint.time := RequestInfo.time r |};
        RequestSummary.queryParams := queryParams;
        RequestSummary.requestHeaders := RequestOpenEvent.requestHeaders requestEvent;
        RequestSummary.responseHeaders := RequestResponseEvent.responseHeaders responseEvent;
        RequestSummary.start := RequestEventInfo.time request;
        RequestSummary.status := RequestResponseEvent.responseStatus responseEvent;
        RequestSummary.time :=
          PrimFloat.sub (RequestEventInfo.time response) (RequestEventInfo.time request);
        RequestSummary.triggerPoint := RequestInfo.triggerPoint r;
        RequestSummary.type := type;
        RequestSummary.url := RequestOpenEvent.requestUrl requestEvent;
      |}
  | _, _ => Throw TypeError
  end.

(** The summaries of the complete records, before the type filter. *)
Definition completeSummaries (requests : list RequestInfo.t) (events : list EventInfo)
  : result (list RequestSummary.t) :=
  eventsMap ← eventsByRequestId events;
  mapM summarize (List.filter isComplete (map (attach eventsMap) requests)).

Definition comparePoints (a b : RequestSummary.t) : result comparison :=
  compareNumericStrings
    (TimeStampedPoint.point (RequestSummary.point a))
    (TimeStampedPoint.point (RequestSummary.point b)).

Definition partialRequestsToCompleteSummaries
    (requests : list RequestInfo.t) (events : list EventInfo)
    (types : gset RequestType.t) : result (list RequestSummary.t) :=
  rows ← completeSummaries requests events;
  let summaries := List.filter (keepRow types) rows in
  sort comparePoints summaries.

End Correlator.

(** ** Decoding base64 *)

(** [window.atob], as the HTML standard defines it (forgiving-base64
    decode): ASCII whitespace is removed; when the length is then a
    multiple of four, one or two padding signs at the end are removed;
    a length that leaves the remainder one, or a code unit outside the
    base64 alphabet, is a failure (an [InvalidCharacterError]
    exception, here [None]); the code units are then read six bits at a
    time, the bits left over at the end being dropped. *)
Module Base64.

Definition isWhitespace (c : ascii) : bool :=
  let n := N_of_ascii c in
  ((n =? 9) || (n =? 10) || (n =? 12) || (n =? 13) || (n =? 32))%N.

Definition removeWhitespace (data : list ascii) : list ascii :=
  List.filter (fun c => negb (isWhitespace c)) data.

Definition isPad (c : ascii) : bool := Ascii.eqb c "=".

Definition stripPadding (data : list ascii) : list ascii :=
  if (length data mod 4 =? 0)%nat then
    match rev data with
    | c1 :: c2 :: r =>
        if isPad c1 then if isPad c2 then rev r else rev (c2 :: r) else data
    | [c1] => if isPad c1 then [] else data
    | [] => data
    end
  else data.

(** The position of a code unit in the base64 alphabet. *)
Definition sextet (c : ascii) : option N :=
  let n := N_of_ascii c in
  if ((65 <=? n) && (n <=? 90))%N then Some (n - 65)%N
  else if ((97 <=? n) && (n <=? 122))%N then Some (n - 71)%N
  else if ((48 <=? n) && (n <=? 57))%N then Some (n + 4)%N
  else if (n =? 43)%N then Some 62%N
  else if (n =? 47)%N then Some 63%N
  else None.

(** The bytes of a sequence of six-bit values: three bytes for every
    four values, and at the end one byte for two values and two bytes
    for three. *)
Fixpoint bytesOf (sextets : list N) : list N :=
  match sextets with
  | a :: b :: c :: d :: rest =>
      let n := (((a * 64 + b) * 64 + c) * 64 + d)%N in
      (n / 65536)%N :: ((n / 256) mod 256)%N :: (n mod 256)%N :: bytesOf rest
  | [a; b; c] =>
      let n := ((((a * 64 + b) * 64 + c)) / 4)%N in
      [(n / 256)%N; (n mod 256)%N]
  | [a; b] => [((a * 64 + b) / 16)%N]
  | _ => []
  end.

Definition decode (data : list ascii) : option (list N) :=
  let data := stripPadding (removeWhitespace data) in
  if (length data mod 4 =? 1)%nat then None
  else bytesOf <$> mapM sextet data.

Definition atob (data : string) : option string :=
  (fun bytes => string_of_list_ascii (map ascii_of_N bytes))
    <$> decode (list_ascii_of_string data).

End Base64.

(** [binaryString.charCodeAt(i)]; [None] is NaN, past the end. *)
Definition charCodeAt (s : string) (i : nat) : option N :=
  N_of_ascii <$> String.get i s.

(** [bytes[i] = v] on a [Uint8Array]: the value is stored modulo 256
    (NaN as 0), and a store past the end does nothing. *)
Definition storeUint8 (bytes : list N) (i : nat) (v : option N) : list N :=
  <[i := (default 0%N v mod 256)%N]> bytes.

(** The loop fills a new [Uint8Array] of the length of the decoded
    string, from index 0 upwards; the result is the content of its
    buffer. *)
Definition base64ToArrayBuffer (base64 : string) : option (list N) :=
  binaryString ← Base64.atob base64;
  let len := String.length binaryString in
  let bytes := replicate len 0%N in
  Some (fold_left (fun bytes i => storeUint8 bytes i (charCodeAt binaryString i))
          (seq 0 len) bytes).

(** ** Vocabulary of the statements *)

(** The events of request [i], in input order. *)
Definition eventsOf (i : string) (events : list EventInfo) : list EventInfo :=
  List.filter (fun e => String.eqb (RequestEventInfo.id e) i) events.

(** [e] is an event of request [i] and of kind [k]. *)
Definition isOf (i : string) (k : Kind.t) (e : EventInfo) : bool :=
  String.eqb (RequestEventInfo.id e) i && Kind.eqb (kind (RequestEventInfo.event e)) k.

(** Some event has an id that is a property name of
    [Object.prototype]. *)
Definition inheritedId (events : list EventInfo) : bool :=
  existsb (fun e => Js.inherited (RequestEventInfo.id e)) events.

(** The entry of kind [k] in [eventsToMap(eventsMap[i])]. *)
Definition keptIn (eventsMap : gmap string (list EventInfo)) (i : string) (k : Kind.t)
  : option EventInfo :=
  RequestEventMap.lookup k (eventsToMap (collectionOf (Js.get eventsMap i))).

(** The event that the grouping stage keeps for request [i] and kind
    [k]: [eventsToMap(eventsByRequestId(events)[i])[k]]. *)
Definition representative (events : list EventInfo) (i : string) (k : Kind.t)
  : result (option EventInfo) :=
  eventsMap ← eventsByRequestId events; mret (keptIn eventsMap i k).

(** The buckets by id, each with its latest event in front: what the
    reduction has built when it returns. *)
Definition prepend (acc : gmap string (list EventInfo)) (e : EventInfo)
  : gmap string (list EventInfo) :=
  <[RequestEventInfo.id e := e :: default [] (acc !! RequestEventInfo.id e)]> acc.

Definition bucketsOf (events : list EventInfo) : gmap string (list EventInfo) :=
  fold_left prepend events ∅.

(** Request [i] has an event of kind [k]. *)
Definition hasEvent (events : list EventInfo) (i : string) (k : Kind.t) : bool :=
  existsb (isOf i k) events.

(** A complete exchange: the record has a request event and a response
    event. *)
Definition complete (events : list EventInfo) (r : RequestInfo.t) : bool :=
  hasEvent events (RequestInfo.id r) Kind.request
  && hasEvent events (RequestInfo.id r) Kind.response.

(** The url of the first request event of record [r]. *)
Definition requestUrlOf (events : list EventInfo) (r : RequestInfo.t) : option string :=
  match List.find (isOf (RequestInfo.id r) Kind.request) events with
  | Some {| RequestEventInfo.event := Open o |} => Some (RequestOpenEvent.requestUrl o)
  | _ => None
  end.

(** The derivation of the summary of [r] throws: [r] is complete and
    the url of its first request event does not parse. *)
Definition derivationFails (new_URL : string -> option URL.t)
    (events : list EventInfo) (r : RequestInfo.t) : bool :=
  complete events r
  && match requestUrlOf events r with
     | Some url => negb (Boolean (new_URL url))
     | None => false
     end.

Definition isBody (e : EventInfo) : bool :=
  match RequestEventInfo.event e with
  | RequestBody | ResponseBody => true
  | _ => false
  end.

(** The input without its body events. *)
Definition withoutBodies (events : list EventInfo) : list EventInfo :=
  List.filter (fun e => negb (isBody e)) events.

(** The body events of the input. *)
Definition bodyEvents (events : list EventInfo) : list EventInfo :=
  List.filter isBody events.

(** An event map without its body entries. *)
Definition dropBodies (m : RequestEventMap.t) : RequestEventMap.t :=
  RequestEventMap.mk (RequestEventMap.request m) None None (RequestEventMap.response m).

(** A summary with both body flags down. *)
Definition clearBodyFlags (s : RequestSummary.t) : RequestSummary.t :=
  {| RequestSummary.documentType := RequestSummary.documentType s;
     RequestSummary.domain := RequestSummary.domain s;
     RequestSummary.end_ := RequestSummary.end_ s;
     RequestSummary.hasResponseBody := false;
     RequestSummary.hasRequestBody := false;
     RequestSummary.id := RequestSummary.id s;
     RequestSummary.method := RequestSummary.method s;
     RequestSummary.name := RequestSummary.name s;
     RequestSummary.point := RequestSummary.point s;
     RequestSummary.queryParams := RequestSummary.queryParams s;
     RequestSummary.requestHeaders := RequestSummary.requestHeaders s;
     RequestSummary.responseHeaders := RequestSummary.responseHeaders s;
     RequestSummary.start := RequestSummary.start s;
     RequestSummary.status := RequestSummary.status s;
     RequestSummary.time := RequestSummary.time s;
     RequestSummary.triggerPoint := RequestSummary.triggerPoint s;
     RequestSummary.type := RequestSummary.type s;
     RequestSummary.url := RequestSummary.url s |}.

(** What a summary takes from its record and from the body events. *)
Definition summaryOfRecord (events : list EventInfo) (r : RequestInfo.t)
    (s : RequestSummary.t) : Prop :=
  RequestSummary.id s = RequestInfo.id r
  /\ RequestSummary.point s =
       {| TimeStampedPoint.point := RequestInfo.point r;
          TimeStampedPoint.time := RequestInfo.time r |}
  /\ RequestSummary.triggerPoint s = RequestInfo.triggerPoint r
  /\ RequestSummary.hasRequestBody s = hasEvent events (RequestInfo.id r) Kind.request_body
  /\ RequestSummary.hasResponseBody s = hasEvent events (RequestInfo.id r) Kind.response_body.

(** Equality of header names up to letter case. *)
Definition sameName (a b : string) : bool :=
  String.eqb (Js.toLowerCase a) (Js.toLowerCase b).

(** [needle] occurs in [hay]. *)
Definition contains (needle hay : string) : Prop :=
  exists pre post, hay = String.append pre (String.append needle post).

(** The order of the point comparator: the shorter string first, and
    among strings of one length the lexicographic order. *)
Definition pointLe (a b : string) : Prop :=
  (String.length a < String.length b)%nat
  \/ (String.length a = String.length b /\ String.compare a b <> Gt).

(** The comparison that the point comparator returns on valid points. *)
Definition lengthThenLex (a b : string) : comparison :=
  if Nat.ltb (String.length a) (String.length b) then Lt
  else if Nat.ltb (String.length b) (String.length a) then Gt
  else String.compare a b.

Definition summaryPoint (s : RequestSummary.t) : string :=
  TimeStampedPoint.point (RequestSummary.point s).

(** The number that a string of digits denotes. *)
Definition digitValue (c : ascii) : N := (N_of_ascii c - 48)%N.

Fixpoint numericValue (s : string) : N :=
  match s with
  | EmptyString => 0%N
  | String c s' =>
      (digitValue c * 10 ^ N.of_nat (String.length s') + numericValue s')%N
  end.

(** A valid point with no leading zero (the point 0 apart). *)
Definition canonicalPoint (s : string) : bool :=
  validPoint s
  && match s with
     | String c (String _ _) => negb (Ascii.eqb c "0")
     | _ => true
     end.

(** *** Statements of the specification that fail on some input *)

(** The lookup ignores the letter case of the stored name and of the
    key, and returns the value of the first match. *)
Definition findHeaderIgnoresCase (hs : list Header.t) (key : string) : Prop :=
  findHeader (Some hs) key
  = Header.value <$> List.find (fun h => sameName (Header.name h) key) hs.

(** The bucket of [i] lists the events of [i] in their input order. *)
Definition bucketInInputOrder (events : list EventInfo) (i : string) : Prop :=
  (fun eventsMap => Js.get eventsMap i) <$> eventsByRequestId events
  = Ok (Js.Own (eventsOf i events)).

(** The representative is the last event of that id and kind in the
    input. *)
Definition lastWriteWins (events : list EventInfo) (i : string) (k : Kind.t) : Prop :=
  representative events i k = Ok (List.find (isOf i k) (rev events)).

(** A record whose derivation fails is dropped alone: the output is that
    of the batch without the failing records. *)
Definition isolatesFailingRecords (new_URL : string -> option URL.t)
    (requests : list RequestInfo.t) (events : list EventInfo)
    (types : gset RequestType.t) : Prop :=
  partialRequestsToCompleteSummaries new_URL requests events types
  = partialRequestsToCompleteSummaries new_URL
      (List.filter (fun r => negb (derivationFails new_URL events r)) requests)
      events types.


(** Every record with a request event and a response event has its
    summary. *)
Definition everyCompleteRecordSummarized (new_URL : string -> option URL.t)
    (requests : list RequestInfo.t) (events : list EventInfo) : Prop :=
  exists sums,
    completeSummaries new_URL requests events = Ok sums
    /\ map RequestSummary.id sums
       = map RequestInfo.id (List.filter (complete events) requests).

(** *** Vocabulary of the further properties *)

(** [documentType.split("/")[1] || documentType]: the type that a
    summary derives from its document type. *)
Definition typeOf (documentType : string) : string :=
  Js.or_else (Js.split "/" documentType !! 1%nat) documentType.

(** [.split("/").filter(f => f.length).pop() || ""] on a pathname. *)
Definition lastSegment (pathname : string) : string :=
  Js.or_else (last (List.filter Js.truthy (Js.split "/" pathname))) "".

(** Every code unit of [s] satisfies [p]. *)
Fixpoint allUnits (p : ascii -> bool) (s : string) : bool :=
  match s with
  | EmptyString => true
  | String c s' => p c && allUnits p s'
  end.

Definition notSlash (c : ascii) : bool := negb (Ascii.eqb c "/").
Definition isSlash (c : ascii) : bool := Ascii.eqb c "/".
Definition notLineTerminator (c : ascii) : bool := negb (Js.isLineTerminator c).
Definition notParamDelimiter (c : ascii) : bool := negb (isParamDelimiter c).

(** No comma or semicolon stands on the first line of [s]. *)
Fixpoint delimiterFree (s : string) : bool :=
  match s with
  | EmptyString => true
  | String c s' =>
      if Js.isLineTerminator c then true
      else negb (isParamDelimiter c) && delimiterFree s'
  end.

(** The class of a content-type value by its prefix. *)
Definition classOfValue (v : string) : ContentType.t :=
  if String.prefix "application/json" v then ContentType.json
  else if String.prefix "text/" v then ContentType.text
  else ContentType.other.

(** The fields of a summary agree with each other: the document type
    and the type come from the response headers, the duration from the
    two times, and the domain, name and query parameters from the
    url. *)
Definition consistentSummary (new_URL : string -> option URL.t)
    (s : RequestSummary.t) : Prop :=
  RequestSummary.documentType s = getDocumentType (RequestSummary.responseHeaders s)
  /\ RequestSummary.type s = typeOf (RequestSummary.documentType s)
  /\ RequestSummary.time s = PrimFloat.sub (RequestSummary.end_ s) (RequestSummary.start s)
  /\ exists u, new_URL (RequestSummary.url s) = Some u
               /\ RequestSummary.domain s = URL.host u
               /\ RequestSummary.name s = lastSegment (URL.pathname u)
               /\ RequestSummary.queryParams s = URL.searchParams u.

(** [e] is an event of one of the records. *)
Definition ofSomeRecord (requests : list RequestInfo.t) (e : EventInfo) : bool :=
  existsb (fun r => String.eqb (RequestEventInfo.id e) (RequestInfo.id r)) requests.

(** The events of requests that have no record. *)
Definition foreignEvents (requests : list RequestInfo.t) (events : list EventInfo)
  : list EventInfo :=
  List.filter (fun e => negb (ofSomeRecord requests e)) events.

(** The standard base64 encoding of a sequence of bytes, the inverse
    that [base64ToArrayBuffer] is measured against. *)
Definition alphabetUnit (n : N) : ascii :=
  if (n <? 26)%N then ascii_of_N (n + 65)
  else if (n <? 52)%N then ascii_of_N (n + 71)
  else if (n <? 62)%N then ascii_of_N (n - 4)
  else if (n =? 62)%N then "+"%char
  else "/"%char.

Fixpoint sextetsOf (bytes : list N) : list N :=
  match bytes with
  | a :: b :: c :: rest =>
      (a / 4)%N :: ((a mod 4) * 16 + b / 16)%N :: ((b mod 16) * 4 + c / 64)%N
        :: (c mod 64)%N :: sextetsOf rest
  | [a; b] => [(a / 4)%N; ((a mod 4) * 16 + b / 16)%N; ((b mod 16) * 4)%N]
  | [a] => [(a / 4)%N; ((a mod 4) * 16)%N]
  | [] => []
  end.

Definition paddingOf (bytes : list N) : list ascii :=
  match (length bytes mod 3)%nat with
  | 1%nat => ["="; "="]%char
  | 2%nat => ["="%char]
  | _ => []
  end.

(** With [padded] the encoding ends with its padding signs; without,
    they are left out. *)
Definition encodeBase64 (padded : bool) (bytes : list N) : string :=
  string_of_list_ascii
    (map alphabetUnit (sextetsOf bytes) ++ (if padded then paddingOf bytes else [])).

(** The code units of the input that carry data: neither whitespace
    nor the padding at the end. *)
Definition dataUnits (base64 : string) : list ascii :=
  Base64.stripPadding (Base64.removeWhitespace (list_ascii_of_string base64)).

(** *** Example data *)

Definition openAt (i point url : string) : EventInfo :=
  RequestEventInfo.mk i point 0%float (Open (RequestOpenEvent.mk url "GET" [])).

Definition responseAt (i point : string) (headers : list Header.t) : EventInfo :=
  RequestEventInfo.mk i point 0%float
    (ResponseHeaders (RequestResponseEvent.mk 200%float headers)).

Definition recordAt (i point : string) : RequestInfo.t :=
  RequestInfo.mk i point 0%float None.

(** The events of the end-to-end scenario: request 1 with its request
    event at point 5 and its response event at point 12, request 2 with
    a request event only, at point 3. *)
Definition scenarioEvents (tOpen tResponse tOpen2 : float)
    (requestHeaders : list Header.t) (open2 : RequestOpenEvent.t) : list EventInfo :=
  [RequestEventInfo.mk "1" "5" tOpen
     (Open (RequestOpenEvent.mk "https://a.test/x?y=1" "GET" requestHeaders));
   RequestEventInfo.mk "1" "12" tResponse
     (ResponseHeaders
        (RequestResponseEvent.mk 200%float
           [Header.mk "content-type" "application/json; charset=utf-8"]));
   RequestEventInfo.mk "2" "3" tOpen2 (Open open2)].

(** The execution points of the summaries of a result. *)
Definition pointsOf (out : result (list RequestSummary.t)) : result (list string) :=
  map (fun s => TimeStampedPoint.point (RequestSummary.point s)) <$> out.

(** Three complete exchanges, whose records are at the points 100, 20
    and 9. *)
Definition threeExchanges : list EventInfo :=
  [openAt "a" "100" "https://a.test/a"; responseAt "a" "101" [];
   openAt "b" "20" "https://a.test/b"; responseAt "b" "21" [];
   openAt "c" "9" "https://a.test/c"; responseAt "c" "10" []].

Definition threeRecords : list RequestInfo.t :=
  [recordAt "a" "100"; recordAt "b" "20"; recordAt "c" "9"].

(** A complete exchange whose request url does not parse, and a
    well-formed one. *)
Definition brokenAndSound : list EventInfo :=
  [openAt "1" "5" "not a url"; responseAt "1" "6" [];
   openAt "2" "7" "https://a.test/x"; responseAt "2" "8" []].

(** What a summary takes from the events: its url, method, request
    headers and start time from the first request event of its record,
    its status, response headers and end time from the first response
    event. *)
Definition summaryOfFirstEvents (events : list EventInfo) (r : RequestInfo.t)
    (s : RequestSummary.t) : Prop :=
  exists rq rs o h,
    List.find (isOf (RequestInfo.id r) Kind.request) events = Some rq
    /\ RequestEventInfo.event rq = Open o
    /\ List.find (isOf (RequestInfo.id r) Kind.response) events = Some rs
    /\ RequestEventInfo.event rs = ResponseHeaders h
    /\ RequestSummary.url s = RequestOpenEvent.requestUrl o
    /\ RequestSummary.method s = RequestOpenEvent.requestMethod o
    /\ RequestSummary.requestHeaders s = RequestOpenEvent.requestHeaders o
    /\ RequestSummary.start s = RequestEventInfo.time rq
    /\ RequestSummary.status s = RequestResponseEvent.responseStatus h
    /\ RequestSummary.responseHeaders s = RequestResponseEvent.responseHeaders h
    /\ RequestSummary.end_ s = RequestEventInfo.time rs.

(** The events of [brokenAndSound] with those of request 2 first. *)
Definition soundAndBroken : list EventInfo :=
  [responseAt "2" "8" []; openAt "2" "7" "https://a.test/x";
   responseAt "1" "6" []; openAt "1" "5" "not a url"].

(** * Properties *)

(** Unfolds the monad operations of [result] in the goal. *)
Ltac result_simpl :=
  cbn; unfold mret, result_ret, mbind, result_bind, fmap, result_fmap; cbn.

(** Linear arithmetic with quotients and remainders by constants. *)
Ltac lia_div := zify; Z.to_euclidean_division_equations; lia.

(** ** The embedding on small inputs *)

Example split_pathname : Js.split "/" "/a//b/" = [""; "a"; ""; "b"; ""].
Proof. reflexivity. Qed.

Example split_empty : Js.split "/" "" = [""].
Proof. reflexivity. Qed.

Example toLowerCase_header : Js.toLowerCase "Content-TYPE" = "content-type".
Proof. reflexivity. Qed.

Example match_chop_greedy : match_chop "a/b, c; d" = Some "a/b, c".
Proof. reflexivity. Qed.

Example match_chop_no_delimiter : match_chop "text/html" = None.
Proof. reflexivity. Qed.

Example contentType_json :
  contentType [Header.mk "Content-Type" "application/json; charset=utf-8"]
  = ContentType.json.
Proof. reflexivity. Qed.

Example PlainURL_parse_query :
  PlainURL.parse "https://a.test/x?y=1"
  = Some {| URL.host := "a.test"; URL.pathname := "/x";
            URL.searchParams := [("y", "1")] |}.
Proof. reflexivity. Qed.

Example PlainURL_parse_no_scheme : PlainURL.parse "not a url" = None.
Proof. reflexivity. Qed.

Example name_of_directory :
  name PlainURL.parse "https://a.test/static/fonts/" = Ok "fonts".
Proof. reflexivity. Qed.

Example name_of_root : name PlainURL.parse "https://a.test" = Ok "".
Proof. reflexivity. Qed.

Example sort_points :
  sort compareNumericStrings ["100"; "20"; "9"] = Ok ["9"; "20"; "100"].
Proof. reflexivity. Qed.

Example sort_invalid_point :
  sort compareNumericStrings ["100"; "2x"] = Throw InvalidPointFormat.
Proof. reflexivity. Qed.

(** ** The event grouper *)

Section Grouper.
Implicit Types (e : EventInfo) (events es : list EventInfo) (i : string) (k : Kind.t).
Implicit Types (acc eventsMap : gmap string (list EventInfo)).

Lemma bucketsOf_acc events acc i :
  fold_left prepend events acc !! i =
  match eventsOf i events with
  | [] => acc !! i
  | b => Some (rev b ++ default [] (acc !! i))
  end.
Proof.
  revert acc. induction events as [|e es IH]; intros acc; [done|].
  cbn [fold_left]. rewrite IH. unfold eventsOf. cbn [List.filter].
  destruct (String.eqb_spec (RequestEventInfo.id e) i) as [Heq|Hne].
  - unfold prepend. rewrite Heq, lookup_insert_eq. cbn [default].
    destruct (List.filter _ es) as [|x b]; [done|].
    f_equal. cbn [rev]. by rewrite <- !app_assoc.
  - unfold prepend. by rewrite lookup_insert_ne.
Qed.

Lemma bucketsOf_lookup events i :
  bucketsOf events !! i =
  match eventsOf i events with
  | [] => None
  | b => Some (rev b)
  end.
Proof.
  unfold bucketsOf. rewrite bucketsOf_acc.
  rewrite lookup_empty. destruct (eventsOf i events); [done|].
  cbn [default]. by rewrite app_nil_r.
Qed.

Lemma pushEvent_prepend acc e :
  pushEvent acc e
  = match acc !! RequestEventInfo.id e with
    | Some _ => Ok (prepend acc e)
    | None =>
        if Js.inherited (RequestEventInfo.id e) then Throw TypeError
        else Ok (prepend acc e)
    end.
Proof.
  unfold pushEvent, prepend, Js.get.
  destruct (acc !! RequestEventInfo.id e); [done|].
  by destruct (Js.inherited (RequestEventInfo.id e)).
Qed.

(** The reduction throws at the first event whose id is inherited, and
    otherwise puts each event in front of its bucket: no inherited name
    ever becomes an own key of the accumulator. *)
Lemma reduce_pushEvent events acc :
  (forall key, Js.inherited key = true -> acc !! key = None) ->
  reduce pushEvent events acc
  = if inheritedId events then Throw TypeError
    else Ok (fold_left prepend events acc).
Proof.
  revert acc. induction events as [|e es IH]; intros acc Hacc; [done|].
  cbn [reduce inheritedId existsb fold_left]. fold (inheritedId es).
  rewrite pushEvent_prepend.
  destruct (Js.inherited (RequestEventInfo.id e)) eqn:Hi.
  - by rewrite (Hacc _ Hi).
  - cbn [orb].
    assert (Hnext : forall key, Js.inherited key = true -> prepend acc e !! key = None).
    { intros key Hkey. unfold prepend.
      rewrite lookup_insert_ne; [by apply Hacc|]. congruence. }
    destruct (acc !! RequestEventInfo.id e) as [b|];
      unfold mbind, result_bind; by apply IH.
Qed.

Lemma eventsByRequestId_unfold events :
  eventsByRequestId events
  = if inheritedId events then Throw TypeError else Ok (bucketsOf events).
Proof. apply reduce_pushEvent. intros key _. apply lookup_empty. Qed.

Lemma eventsByRequestId_Ok events eventsMap :
  eventsByRequestId events = Ok eventsMap <->
  inheritedId events = false /\ eventsMap = bucketsOf events.
Proof.
  rewrite eventsByRequestId_unfold. destruct (inheritedId events).
  - split; [done|]. by intros [? _].
  - split; [by intros [= <-]|]. by intros [_ ->].
Qed.

(** For [keyBy], an inherited member is as good as no bucket. *)
Lemma get_collection eventsMap i :
  eventsToMap (collectionOf (Js.get eventsMap i)) = eventsToMap (eventsMap !! i).
Proof.
  unfold Js.get. destruct (eventsMap !! i); [done|]. by destruct (Js.inherited i).
Qed.

Lemma get_bucketsOf events i :
  Js.get (bucketsOf events) i =
  match eventsOf i events with
  | [] => if Js.inherited i then Js.Inherited else Js.Undefined
  | b => Js.Own (rev b)
  end.
Proof. unfold Js.get. rewrite bucketsOf_lookup. by destruct (eventsOf i events). Qed.

Lemma lookup_assign k m e :
  RequestEventMap.lookup k (RequestEventMap.assign m e) =
  if Kind.eqb (kind (RequestEventInfo.event e)) k then Some e
  else RequestEventMap.lookup k m.
Proof. destruct e as [? ? ? []], k; reflexivity. Qed.

Lemma find_append {A} (p : A -> bool) (l1 l2 : list A) :
  List.find p (l1 ++ l2) =
  match List.find p l1 with
  | Some x => Some x
  | None => List.find p l2
  end.
Proof.
  induction l1 as [|x l1 IH]; [done|]. cbn [app List.find].
  by destruct (p x).
Qed.

Lemma lookup_fold_assign k es m :
  RequestEventMap.lookup k (fold_left RequestEventMap.assign es m) =
  match List.find (fun e => Kind.eqb (kind (RequestEventInfo.event e)) k) (rev es) with
  | Some e => Some e
  | None => RequestEventMap.lookup k m
  end.
Proof.
  revert m. induction es as [|e es IH]; intros m; [done|].
  cbn [fold_left rev]. rewrite IH, find_append, lookup_assign.
  destruct (List.find _ (rev es)); [done|]. cbn [List.find].
  by destruct (Kind.eqb _ k).
Qed.

Lemma find_filter {A} (p q : A -> bool) (l : list A) :
  List.find p (List.filter q l) = List.find (fun x => q x && p x) l.
Proof.
  induction l as [|x l IH]; [done|]. cbn [List.filter List.find].
  destruct (q x); cbn [List.find andb]; by rewrite IH.
Qed.

(** Of the events of an id and a kind, the buckets keep the first. *)
Lemma keptIn_find events i k :
  keptIn (bucketsOf events) i k = List.find (isOf i k) events.
Proof.
  unfold keptIn. rewrite get_collection, bucketsOf_lookup.
  unfold isOf. rewrite <- find_filter. fold (eventsOf i events).
  destruct (eventsOf i events) as [|x b] eqn:Hb; [by destruct k|].
  unfold eventsToMap. rewrite lookup_fold_assign, rev_involutive.
  destruct (List.find _ (x :: b)); [done|]. by destruct k.
Qed.

Lemma representative_unfold events i k :
  representative events i k
  = if inheritedId events then Throw TypeError
    else Ok (List.find (isOf i k) events).
Proof.
  unfold representative. rewrite eventsByRequestId_unfold.
  destruct (inheritedId events); [done|].
  unfold mbind, result_bind, mret, result_ret. by rewrite keptIn_find.
Qed.
End Grouper.

(** *** C3: the bucket of an id *)

(** C3, counterexample: on a request followed by its response, the
    bucket of the id holds the response first; it is not the input
    order. *)
Lemma eventsByRequestId_not_input_order :
  (fun eventsMap => Js.get eventsMap "1")
    <$> eventsByRequestId [openAt "1" "5" "https://a.test/x"; responseAt "1" "12" []]
  = Ok (Js.Own [responseAt "1" "12" []; openAt "1" "5" "https://a.test/x"])
  /\ ~ bucketInInputOrder
         [openAt "1" "5" "https://a.test/x"; responseAt "1" "12" []] "1".
Proof.
  split; [reflexivity|].
  unfold bucketInInputOrder. vm_compute. discriminate.
Qed.

(** C3, as amended: when no event has an id that is a property name of
    [Object.prototype], [eventsByRequestId] returns an object that maps
    each id that occurs to the list of that id's events in the reverse
    of their input order (each event is put in front of the ones seen
    before), and that has no own entry for an id that does not occur:
    reading such an id gives [undefined], or the inherited member when
    the id is a property name of [Object.prototype]. When some event
    has such an id the call throws a [TypeError]; it throws nothing
    else. *)
Theorem eventsByRequestId_reverse_order (events : list EventInfo) :
  (inheritedId events = false ->
     exists eventsMap,
       eventsByRequestId events = Ok eventsMap
       /\ forall i,
            eventsMap !! i = match eventsOf i events with
                             | [] => None
                             | b => Some (rev b)
                             end
            /\ Js.get eventsMap i
               = match eventsOf i events with
                 | [] => if Js.inherited i then Js.Inherited else Js.Undefined
                 | b => Js.Own (rev b)
                 end)
  /\ (inheritedId events = true -> eventsByRequestId events = Throw TypeError)
  /\ (forall e, eventsByRequestId events = Throw e -> e = TypeError).
Proof.
  rewrite eventsByRequestId_unfold. split; [|split].
  - intros ->. exists (bucketsOf events). split; [done|]. intros i.
    split; [apply bucketsOf_lookup|apply get_bucketsOf].
  - by intros ->.
  - intros e. destruct (inheritedId events); congruence.
Qed.

(** A request followed by its response: the bucket holds the response
    first. *)
Lemma eventsByRequestId_reverse_order_witness :
  exists eventsMap,
    eventsByRequestId [openAt "1" "5" "https://a.test/x"; responseAt "1" "12" []]
    = Ok eventsMap
    /\ eventsMap !! "1"
       = Some [responseAt "1" "12" []; openAt "1" "5" "https://a.test/x"].
Proof.
  destruct (proj1 (eventsByRequestId_reverse_order
                     [openAt "1" "5" "https://a.test/x"; responseAt "1" "12" []])
              eq_refl) as (eventsMap & Hmap & Hbuckets).
  exists eventsMap. split; [exact Hmap|]. exact (proj1 (Hbuckets "1")).
Defined.

(** *** C2: the representative of a kind *)

(** C2, counterexample: of two request events of one id, the grouping
    stage keeps the one that comes first in the input. *)
Lemma representative_not_last :
  representative
    [openAt "7" "1" "https://a.test/first"; openAt "7" "2" "https://a.test/second"]
    "7" Kind.request
  = Ok (Some (openAt "7" "1" "https://a.test/first"))
  /\ ~ lastWriteWins
         [openAt "7" "1" "https://a.test/first"; openAt "7" "2" "https://a.test/second"]
         "7" Kind.request.
Proof.
  split; [reflexivity|].
  unfold lastWriteWins. vm_compute. discriminate.
Qed.

(** C2, as amended: for every event list, id and kind, when no event
    has an id that is a property name of [Object.prototype], the
    representative that [eventsByRequestId] followed by [eventsToMap]
    keeps is the first event of that id and kind in the input sequence
    (the bucket is built back to front, so the last write of [keyBy] is
    the earliest event), and there is none when no such event exists;
    when some event has such an id, the grouping stage throws a
    [TypeError]. *)
Theorem representative_is_first (events : list EventInfo) (i : string) (k : Kind.t) :
  representative events i k
  = if inheritedId events then Throw TypeError
    else Ok (List.find (isOf i k) events).
Proof. apply representative_unfold. Qed.

(** ** Throwing maps *)

Section MapM.
Context {A B : Type} (f : A -> result B).

Lemma mapM_Ok_Forall2 (l : list A) (out : list B) :
  mapM f l = Ok out -> Forall2 (fun a b => f a = Ok b) l out.
Proof.
  revert out. induction l as [|a l IH]; intros out; cbn.
  - intros [= <-]. constructor.
  - destruct (f a) eqn:Ha; cbn; [|done].
    destruct (mapM f l); cbn; [|done]. intros [= <-]. constructor; auto.
Qed.

Lemma mapM_Throw (l : list A) (e : exn) :
  mapM f l = Throw e -> Exists (fun a => f a = Throw e) l.
Proof.
  induction l as [|a l IH]; cbn; [done|].
  destruct (f a) eqn:Ha; cbn.
  - destruct (mapM f l); cbn; [done|]. intros [= <-]. right. by apply IH.
  - intros [= <-]. by left.
Qed.

Lemma mapM_only_throws (l : list A) (e : exn) :
  Forall (fun a => forall e', f a = Throw e' -> e' = e) l ->
  Exists (fun a => f a = Throw e) l -> mapM f l = Throw e.
Proof.
  induction 1 as [|a l Ha Hl IH]; intros Hex; [by inversion Hex|]. cbn.
  apply Exists_cons in Hex.
  destruct (f a) as [b|e'] eqn:Hfa; cbn.
  - destruct Hex as [Hthrow|Hrest]; [done|]. by rewrite (IH Hrest).
  - by rewrite (Ha e').
Qed.
End MapM.

Lemma Boolean_find {A} (p : A -> bool) (l : list A) :
  Boolean (List.find p l) = existsb p l.
Proof.
  induction l as [|x l IH]; [done|]. cbn. by destruct (p x).
Qed.

Lemma find_ext_in {A} (p q : A -> bool) (l : list A) :
  (forall x, In x l -> p x = q x) -> List.find p l = List.find q l.
Proof.
  induction l as [|x l IH]; intros H; [done|]. cbn.
  rewrite (H x) by by left. destruct (q x); [done|].
  apply IH. intros y Hy. apply H. by right.
Qed.

(** ** The request correlator *)

Lemma Boolean_lookup (k : Kind.t) (m : RequestEventMap.t) :
  Boolean (RequestEventMap.lookup k m) =
  match k with
  | Kind.request => Boolean (RequestEventMap.request m)
  | Kind.response_body => Boolean (RequestEventMap.response_body m)
  | Kind.request_body => Boolean (RequestEventMap.request_body m)
  | Kind.response => Boolean (RequestEventMap.response m)
  end.
Proof. destruct m as [[] [] [] []], k; reflexivity. Qed.

Lemma lookup_bucketsOf (events : list EventInfo) (i : string) (k : Kind.t) :
  RequestEventMap.lookup k (eventsToMap (bucketsOf events !! i))
  = List.find (isOf i k) events.
Proof. rewrite <- keptIn_find. unfold keptIn. by rewrite get_collection. Qed.

Lemma Boolean_kept (events : list EventInfo) (i : string) (k : Kind.t) :
  Boolean (RequestEventMap.lookup k (eventsToMap (bucketsOf events !! i)))
  = hasEvent events i k.
Proof. rewrite lookup_bucketsOf. apply Boolean_find. Qed.

(** An event with an inherited id is on one side or the other of any
    division of the events. *)
Lemma inheritedId_divide (p : EventInfo -> bool) (events : list EventInfo) :
  inheritedId events
  = inheritedId (List.filter p events)
    || inheritedId (List.filter (fun e => negb (p e)) events).
Proof.
  induction events as [|e events IH]; [done|]. cbn [inheritedId existsb List.filter].
  fold (inheritedId events). rewrite IH.
  destruct (p e); cbn [negb inheritedId existsb];
    destruct (Js.inherited (RequestEventInfo.id e)); cbn [orb];
    by rewrite ?orb_true_r.
Qed.

Lemma inheritedId_app (events1 events2 : list EventInfo) :
  inheritedId (events1 ++ events2) = inheritedId events1 || inheritedId events2.
Proof. apply existsb_app. Qed.

(** A [RequestEventMap] is determined by its four entries. *)
Lemma RequestEventMap_ext (m1 m2 : RequestEventMap.t) :
  (forall k, RequestEventMap.lookup k m1 = RequestEventMap.lookup k m2) -> m1 = m2.
Proof.
  intros H.
  pose proof (H Kind.request) as H1. pose proof (H Kind.response_body) as H2.
  pose proof (H Kind.request_body) as H3. pose proof (H Kind.response) as H4.
  destruct m1 as [[[]|] [[? ? ? []]|] [[? ? ? []]|] [[]|]],
           m2 as [[[]|] [[? ? ? []]|] [[? ? ? []]|] [[]|]];
    cbv in H1, H2, H3, H4; congruence.
Qed.

Lemma compareNumericStrings_throws (a b : string) (e : exn) :
  compareNumericStrings a b = Throw e -> e = InvalidPointFormat.
Proof.
  unfold compareNumericStrings. destruct (validPoint a && validPoint b); congruence.
Qed.

Section SortThrows.
Context {A : Type} (cmp : A -> A -> result comparison) (e0 : exn).
Hypothesis cmp_throws : forall x y e, cmp x y = Throw e -> e = e0.

Lemma insert_sorted_throws (x : A) (l : list A) (e : exn) :
  insert_sorted cmp x l = Throw e -> e = e0.
Proof.
  induction l as [|y l IH]; cbn; [done|].
  destruct (cmp x y) as [[]|e'] eqn:Hc; cbn; try done.
  - destruct (insert_sorted cmp x l); cbn; [done|]. intros [= <-]. by apply IH.
  - intros [= <-]. by apply (cmp_throws x y).
Qed.

Lemma sort_throws (l : list A) (e : exn) : sort cmp l = Throw e -> e = e0.
Proof.
  revert e. induction l as [|x l IH]; intros e; cbn; [done|].
  destruct (sort cmp l) as [s|e']; cbn.
  - apply insert_sorted_throws.
  - intros [= <-]. by apply IH.
Qed.
End SortThrows.

Section CorrelatorFacts.
Variable new_URL : string -> option URL.t.
Implicit Types (r : RequestInfo.t) (events : list EventInfo).
Implicit Types (requests : list RequestInfo.t) (types : gset RequestType.t).

Lemma attach_lookup (eventsMap : gmap string (list EventInfo)) r :
  attach eventsMap r = (r, eventsToMap (eventsMap !! RequestInfo.id r)).
Proof. unfold attach. by rewrite get_collection. Qed.

Lemma isComplete_attach events r :
  isComplete (attach (bucketsOf events) r) = complete events r.
Proof.
  unfold isComplete, complete. rewrite attach_lookup. cbn [snd].
  rewrite <- !Boolean_kept. by rewrite !Boolean_lookup.
Qed.

Lemma complete_rows requests events :
  List.filter isComplete (map (attach (bucketsOf events)) requests)
  = map (attach (bucketsOf events)) (List.filter (complete events) requests).
Proof.
  induction requests as [|r requests IH]; [done|]. cbn [map List.filter].
  rewrite isComplete_attach. destruct (complete events r); cbn [map]; by rewrite IH.
Qed.

(** The grouping throws on an inherited id, before any record is read;
    otherwise the complete records are summarized in turn. *)
Lemma completeSummaries_unfold requests events :
  completeSummaries new_URL requests events
  = if inheritedId events then Throw TypeError
    else mapM (summarize new_URL)
           (map (attach (bucketsOf events)) (List.filter (complete events) requests)).
Proof.
  unfold completeSummaries. rewrite eventsByRequestId_unfold.
  destruct (inheritedId events); [done|].
  unfold mbind, result_bind. by rewrite complete_rows.
Qed.

Lemma completeSummaries_returns requests events (rows : list RequestSummary.t) :
  completeSummaries new_URL requests events = Ok rows -> inheritedId events = false.
Proof. rewrite completeSummaries_unfold. by destruct (inheritedId events). Qed.

Lemma completeSummaries_each requests events (rows : list RequestSummary.t) :
  completeSummaries new_URL requests events = Ok rows ->
  Forall (fun s => exists row, summarize new_URL row = Ok s) rows.
Proof.
  rewrite completeSummaries_unfold. destruct (inheritedId events); [done|].
  intros H. apply mapM_Ok_Forall2 in H.
  induction H as [|row s rows' sums Hrow _ IH]; constructor; [by exists row|done].
Qed.

Lemma summarize_throws (row : RequestInfo.t * RequestEventMap.t) (e : exn) :
  summarize new_URL row = Throw e -> e = TypeError.
Proof.
  destruct row as [r [rq rb qb rs]]. unfold summarize, host, name, queryParams, parse.
  cbn. destruct rq, rs; try congruence. destruct (new_URL _); result_simpl; congruence.
Qed.

(** The summary of a complete record: it exists exactly when the url of
    the first request event parses. *)
Lemma summarize_complete events r :
  complete events r = true ->
  exists url, requestUrlOf events r = Some url
    /\ match new_URL url with
       | Some _ =>
           exists s, summarize new_URL (attach (bucketsOf events) r) = Ok s
                     /\ summaryOfRecord events r s
       | None => summarize new_URL (attach (bucketsOf events) r) = Throw TypeError
       end.
Proof.
  intros Hc. unfold requestUrlOf, summaryOfRecord, complete in *.
  rewrite <- !Boolean_kept in *. rewrite <- lookup_bucketsOf.
  rewrite !Boolean_lookup in *. rewrite attach_lookup.
  unfold summarize, host, name, queryParams, parse.
  destruct (eventsToMap _) as [[[i p t o]|] rb qb [rs|]]; try done. cbn.
  eexists; split; [done|].
  destruct (new_URL (RequestOpenEvent.requestUrl o)); result_simpl; [|done].
  eexists; split; [done|]. cbn. by destruct rb, qb.
Qed.

Lemma derivationFails_spec events r :
  derivationFails new_URL events r = true <->
  complete events r = true
  /\ summarize new_URL (attach (bucketsOf events) r) = Throw TypeError.
Proof.
  unfold derivationFails. destruct (complete events r) eqn:Hc.
  - destruct (summarize_complete events r Hc) as (url & Hurl & Hs).
    rewrite Hurl. destruct (new_URL url); cbn [andb negb Boolean].
    + destruct Hs as (s & Hs & _). rewrite Hs. split; [done|]. by intros [_ ?].
    + by split.
  - split; [done|]. by intros [? _].
Qed.

Lemma completeSummaries_Throw requests events (e : exn) :
  completeSummaries new_URL requests events = Throw e <->
  e = TypeError
  /\ (inheritedId events = true
      \/ Exists (fun r => derivationFails new_URL events r = true) requests).
Proof.
  rewrite completeSummaries_unfold. destruct (inheritedId events).
  { split; [intros [= <-]; split; [done|by left]|by intros [-> _]]. }
  split.
  - intros H. pose proof (mapM_Throw _ _ _ H) as Hex.
    apply List.Exists_exists in Hex as (row & Hin & Hrow).
    pose proof (summarize_throws _ _ Hrow) as ->. split; [done|]. right.
    apply in_map_iff in Hin as (r & <- & Hr). apply filter_In in Hr as [Hr Hc].
    apply List.Exists_exists. exists r. split; [done|]. by apply derivationFails_spec.
  - intros [-> [?|Hex]]; [done|]. apply mapM_only_throws.
    + apply List.Forall_forall. intros row _ e'. apply summarize_throws.
    + apply List.Exists_exists in Hex as (r & Hin & Hr).
      apply derivationFails_spec in Hr as [Hc Hs].
      apply List.Exists_exists. eexists. split; [|exact Hs].
      apply in_map. by apply filter_In.
Qed.

Lemma completeSummaries_Ok requests events (sums : list RequestSummary.t) :
  completeSummaries new_URL requests events = Ok sums ->
  Forall2 (summaryOfRecord events) (List.filter (complete events) requests) sums.
Proof.
  rewrite completeSummaries_unfold. destruct (inheritedId events); [done|]. intros H.
  apply mapM_Ok_Forall2 in H. remember (List.filter (complete events) requests) as rs eqn:Hrs.
  assert (Hall : Forall (fun r => complete events r = true) rs).
  { subst rs. apply List.Forall_forall. intros r Hr. by apply filter_In in Hr as []. }
  clear Hrs. revert sums H. induction Hall as [|r rs Hc _ IH]; intros sums H.
  - inversion H. constructor.
  - inversion H as [|? s ? sums' Hs Hrest]; subst. constructor; [|by apply IH].
    destruct (summarize_complete events r Hc) as (url & _ & Hu).
    destruct (new_URL url); [|congruence].
    destruct Hu as (s' & Hs' & Hspec). congruence.
Qed.

Lemma partial_Throw_TypeError requests events types :
  partialRequestsToCompleteSummaries new_URL requests events types = Throw TypeError <->
  completeSummaries new_URL requests events = Throw TypeError.
Proof.
  unfold partialRequestsToCompleteSummaries.
  destruct (completeSummaries new_URL requests events) as [rows|e]; cbn; [|done].
  split; [|done]. intros H.
  apply (sort_throws _ InvalidPointFormat) in H; [done|].
  intros x y e. apply compareNumericStrings_throws.
Qed.

Lemma completeSummaries_total requests events :
  inheritedId events = false ->
  Forall (fun r => derivationFails new_URL events r = false) requests ->
  exists sums, completeSummaries new_URL requests events = Ok sums.
Proof.
  intros Hown Hall. destruct (completeSummaries new_URL requests events) as [sums|e] eqn:H.
  - by exists sums.
  - apply completeSummaries_Throw in H as [_ [Hinh|Hex]]; [congruence|].
    apply List.Exists_exists in Hex as (r & Hin & Hr).
    rewrite List.Forall_forall in Hall. rewrite (Hall r Hin) in Hr. discriminate.
Qed.

(** A record that is not complete adds nothing, wherever it stands. *)
Lemma incomplete_record_skipped (before after : list RequestInfo.t) r events :
  complete events r = false ->
  completeSummaries new_URL (before ++ r :: after) events
  = completeSummaries new_URL (before ++ after) events.
Proof.
  intros Hc. rewrite !completeSummaries_unfold, !List.filter_app.
  cbn [List.filter]. by rewrite Hc.
Qed.

Lemma find_never {A} (p : A -> bool) (l : list A) :
  (forall x, In x l -> p x = false) -> List.find p l = None.
Proof.
  induction l as [|x l IH]; intros H; [done|]. cbn.
  rewrite (H x) by by left. apply IH. intros y Hy. apply H. by right.
Qed.

Lemma eventsToMap_withoutBodies events (i : string) :
  eventsToMap (bucketsOf (withoutBodies events) !! i)
  = dropBodies (eventsToMap (bucketsOf events !! i)).
Proof.
  apply RequestEventMap_ext. intros k.
  rewrite lookup_bucketsOf. unfold withoutBodies. rewrite find_filter.
  destruct k.
  - change (RequestEventMap.lookup Kind.request (dropBodies ?m))
      with (RequestEventMap.lookup Kind.request m).
    rewrite lookup_bucketsOf.
    apply find_ext_in. intros [? ? ? []] _; unfold isBody, isOf; cbn; by rewrite ?andb_false_r.
  - cbn. apply find_never. intros [? ? ? []] _; unfold isBody, isOf; cbn; by rewrite ?andb_false_r.
  - cbn. apply find_never. intros [? ? ? []] _; unfold isBody, isOf; cbn; by rewrite ?andb_false_r.
  - change (RequestEventMap.lookup Kind.response (dropBodies ?m))
      with (RequestEventMap.lookup Kind.response m).
    rewrite lookup_bucketsOf.
    apply find_ext_in. intros [? ? ? []] _; unfold isBody, isOf; cbn; by rewrite ?andb_false_r.
Qed.

Lemma summarize_dropBodies r (m : RequestEventMap.t) :
  summarize new_URL (r, dropBodies m) = clearBodyFlags <$> summarize new_URL (r, m).
Proof.
  destruct m as [[rq|] rb qb [rs|]]; unfold summarize, host, name, queryParams, parse;
    cbn; try done.
  by destruct (new_URL _).
Qed.

Lemma inheritedId_withoutBodies events :
  inheritedId (bodyEvents events) = false ->
  inheritedId (withoutBodies events) = inheritedId events.
Proof.
  intros Hb. rewrite (inheritedId_divide isBody events).
  fold (bodyEvents events). fold (withoutBodies events). by rewrite Hb.
Qed.

Lemma completeSummaries_withoutBodies requests events :
  inheritedId (bodyEvents events) = false ->
  completeSummaries new_URL requests (withoutBodies events)
  = map clearBodyFlags <$> completeSummaries new_URL requests events.
Proof.
  intros Hb. unfold completeSummaries. rewrite !eventsByRequestId_unfold.
  rewrite (inheritedId_withoutBodies events Hb).
  destruct (inheritedId events); [done|]. unfold mbind, result_bind.
  induction requests as [|r requests IH]; [done|]. cbn [map List.filter].
  pose (m := eventsToMap (bucketsOf events !! RequestInfo.id r)).
  assert (Hl : attach (bucketsOf (withoutBodies events)) r = (r, dropBodies m))
    by (rewrite attach_lookup; by rewrite eventsToMap_withoutBodies).
  assert (Hr : attach (bucketsOf events) r = (r, m)) by apply attach_lookup.
  rewrite Hl, Hr.
  change (isComplete (r, dropBodies m)) with (isComplete (r, m)).
  destruct (isComplete (r, m)); [|exact IH].
  cbn [mapM]. rewrite summarize_dropBodies, IH. clear IH.
  destruct (summarize new_URL (r, m)); [|done]. result_simpl.
  by destruct (mapM (summarize new_URL) _).
Qed.

Lemma complete_iff events r :
  complete events r = true <->
  (exists e, In e events /\ RequestEventInfo.id e = RequestInfo.id r
             /\ kind (RequestEventInfo.event e) = Kind.request)
  /\ (exists e, In e events /\ RequestEventInfo.id e = RequestInfo.id r
                /\ kind (RequestEventInfo.event e) = Kind.response).
Proof.
  unfold complete, hasEvent, isOf. rewrite andb_true_iff, !existsb_exists.
  assert (Hk : forall a b, Kind.eqb a b = true <-> a = b) by (by intros [] []).
  split; intros [(e1 & H1 & H1') (e2 & H2 & H2')]; split.
  - exists e1. apply andb_true_iff in H1' as [Hi Hk']. apply String.eqb_eq in Hi.
    by apply Hk in Hk'.
  - exists e2. apply andb_true_iff in H2' as [Hi Hk']. apply String.eqb_eq in Hi.
    by apply Hk in Hk'.
  - exists e1. split; [done|]. destruct H1' as [Hi Hk']. apply andb_true_iff.
    split; [by apply String.eqb_eq|by apply Hk].
  - exists e2. split; [done|]. destruct H2' as [Hi Hk']. apply andb_true_iff.
    split; [by apply String.eqb_eq|by apply Hk].
Qed.

End CorrelatorFacts.

Lemma summaryOfRecord_ids (events : list EventInfo) (rs : list RequestInfo.t)
    (sums : list RequestSummary.t) :
  Forall2 (summaryOfRecord events) rs sums ->
  map RequestSummary.id sums = map RequestInfo.id rs.
Proof.
  induction 1 as [|r s rs sums [Hid _] _ IH]; [done|]. cbn. by rewrite Hid, IH.
Qed.

(** *** C1: a summary for each complete record *)

(** C1, counterexample: a record with a request event and a response
    event whose request url does not parse gets no summary; the call
    throws. *)
Lemma complete_record_without_summary :
  complete [openAt "1" "5" "not a url"; responseAt "1" "12" []] (recordAt "1" "5") = true
  /\ completeSummaries PlainURL.parse [recordAt "1" "5"]
       [openAt "1" "5" "not a url"; responseAt "1" "12" []] = Throw TypeError
  /\ ~ everyCompleteRecordSummarized PlainURL.parse [recordAt "1" "5"]
         [openAt "1" "5" "not a url"; responseAt "1" "12" []].
Proof.
  split; [reflexivity|]. split; [reflexivity|].
  intros (sums & H & _). vm_compute in H. discriminate.
Qed.

(** C1, as amended: a record is complete exactly when the events hold
    a request-kind and a response-kind event of its id; whenever the
    call returns, the summaries before the type filter are those of the
    complete records, one each and in record order, and it returns
    whenever no event id is a property name of [Object.prototype] and
    the request url of every complete record parses; when the url of a
    complete record does not parse, or an event id is such a property
    name, the call throws a [TypeError] and no summary is produced for
    any record; a record that lacks the response event adds no summary
    wherever it stands among the others; and the body events only set
    the flags [hasRequestBody] and [hasResponseBody]: without them (and
    when none of them has such a property name as its id) the summaries
    are the same with both flags down. *)
Theorem complete_records_are_summarized (new_URL : string -> option URL.t)
    (requests : list RequestInfo.t) (events : list EventInfo) :
  (forall r, complete events r = true <->
     (exists e, In e events /\ RequestEventInfo.id e = RequestInfo.id r
                /\ kind (RequestEventInfo.event e) = Kind.request)
     /\ (exists e, In e events /\ RequestEventInfo.id e = RequestInfo.id r
                   /\ kind (RequestEventInfo.event e) = Kind.response))
  /\ (forall sums, completeSummaries new_URL requests events = Ok sums ->
        Forall2 (summaryOfRecord events) (List.filter (complete events) requests) sums)
  /\ (inheritedId events = false ->
      Forall (fun r => derivationFails new_URL events r = false) requests ->
        everyCompleteRecordSummarized new_URL requests events)
  /\ (inheritedId events = true
      \/ Exists (fun r => derivationFails new_URL events r = true) requests ->
        completeSummaries new_URL requests events = Throw TypeError
        /\ forall types,
             partialRequestsToCompleteSummaries new_URL requests events types
             = Throw TypeError)
  /\ (forall before after r,
        hasEvent events (RequestInfo.id r) Kind.response = false ->
        completeSummaries new_URL (before ++ r :: after) events
        = completeSummaries new_URL (before ++ after) events)
  /\ (inheritedId (bodyEvents events) = false ->
      completeSummaries new_URL requests (withoutBodies events)
      = map clearBodyFlags <$> completeSummaries new_URL requests events).
Proof.
  split; [apply complete_iff|].
  split; [apply completeSummaries_Ok|].
  split.
  { intros Hown Hall.
    destruct (completeSummaries_total new_URL _ _ Hown Hall) as [sums Hs].
    exists sums. split; [done|].
    apply summaryOfRecord_ids with (events := events).
    by apply (completeSummaries_Ok new_URL). }
  split.
  { intros Hthrow.
    assert (H : completeSummaries new_URL requests events = Throw TypeError)
      by (by apply completeSummaries_Throw).
    split; [done|]. intros types. by apply partial_Throw_TypeError. }
  split; [|apply completeSummaries_withoutBodies].
  intros before after r Hr. apply incomplete_record_skipped.
  unfold complete. rewrite Hr. apply andb_false_r.
Qed.

(** The exchanges of [threeExchanges] all parse: each of the three
    records has its summary. *)
Lemma complete_records_are_summarized_witness :
  everyCompleteRecordSummarized PlainURL.parse threeRecords threeExchanges.
Proof.
  apply (proj1 (proj2 (proj2
    (complete_records_are_summarized PlainURL.parse threeRecords threeExchanges)))).
  - reflexivity.
  - repeat constructor.
Defined.

(** *** C5: an unparseable url *)

(** C5, counterexample: with one complete record whose url does not
    parse and one sound record, the call throws; the sound record alone
    would have given one summary. *)
Lemma unparseable_url_not_isolated :
  partialRequestsToCompleteSummaries PlainURL.parse
    [recordAt "1" "5"; recordAt "2" "7"] brokenAndSound ∅ = Throw TypeError
  /\ length <$> partialRequestsToCompleteSummaries PlainURL.parse
                  [recordAt "2" "7"] brokenAndSound ∅ = Ok 1%nat
  /\ ~ isolatesFailingRecords PlainURL.parse
         [recordAt "1" "5"; recordAt "2" "7"] brokenAndSound ∅.
Proof.
  split; [reflexivity|]. split; [reflexivity|].
  unfold isolatesFailingRecords. vm_compute. discriminate.
Qed.

(** C5, as amended: nothing catches the exception of the URL parser.
    The call throws a [TypeError], and returns no summary for any
    record, when some record with both a request event and a response
    event has a request url that does not parse; it throws a
    [TypeError] only in that case, or when the id of some event is a
    property name of [Object.prototype], on which the grouping throws
    before any record is read. *)
Theorem unparseable_url_aborts_batch (new_URL : string -> option URL.t)
    (requests : list RequestInfo.t) (events : list EventInfo)
    (types : gset RequestType.t) :
  partialRequestsToCompleteSummaries new_URL requests events types = Throw TypeError
  <-> inheritedId events = true
      \/ Exists (fun r => derivationFails new_URL events r = true) requests.
Proof.
  rewrite partial_Throw_TypeError, completeSummaries_Throw.
  split; [by intros [_ ?]|by split].
Qed.

(** *** C10: a record with no event *)




(** ** Header utilities *)

Lemma lower_unit_idempotent (c : ascii) : Js.lower_unit (Js.lower_unit c) = Js.lower_unit c.
Proof. destruct c as [[] [] [] [] [] [] [] []]; reflexivity. Qed.

Lemma toLowerCase_idempotent (s : string) :
  Js.toLowerCase (Js.toLowerCase s) = Js.toLowerCase s.
Proof.
  induction s as [|c s IH]; [done|]. cbn. by rewrite lower_unit_idempotent, IH.
Qed.

Lemma find_first {A} (p : A -> bool) (l : list A) (x : A) :
  List.find p l = Some x <->
  exists before after, l = before ++ x :: after /\ p x = true
                       /\ forall y, In y before -> p y = false.
Proof.
  induction l as [|a l IH]; cbn.
  - split; [done|]. intros ([|? ?] & ? & ? & _); discriminate.
  - destruct (p a) eqn:Ha.
    + split.
      * intros [= ->]. exists [], l. by repeat split.
      * intros ([|b before] & after & Hl & Hx & Hb).
        -- by injection Hl as -> _.
        -- injection Hl as -> _. rewrite (Hb b) in Ha by by left. discriminate.
    + rewrite IH. split.
      * intros (before & after & -> & Hx & Hb). exists (a :: before), after.
        repeat split; [done|]. intros y [<-|Hy]; [done|by apply Hb].
      * intros ([|b before] & after & Hl & Hx & Hb).
        -- injection Hl as -> _. congruence.
        -- injection Hl as -> ->. exists before, after. repeat split; [done|].
           intros y Hy. apply Hb. by right.
Qed.

(** *** C4: [findHeader] *)

(** C4, counterexample: a key with capital letters finds nothing, even
    when a header of that name, in lower case, is stored. *)
Lemma findHeader_key_case_matters :
  findHeader (Some [Header.mk "content-type" "text/html"]) "Content-Type" = None
  /\ ~ findHeaderIgnoresCase [Header.mk "content-type" "text/html"] "Content-Type".
Proof.
  split; [reflexivity|]. unfold findHeaderIgnoresCase. vm_compute. discriminate.
Qed.

(** C4, as amended: [findHeader] lower-cases the stored names only and
    compares them with the key as it is supplied. It returns the value
    of the first header whose lower-cased name equals the key, and
    [undefined] when there is none or when the list is [undefined]. For
    a key in lower case this is a match up to letter case; a key with a
    capital letter matches no header. *)
Theorem findHeader_first_match (hs : list Header.t) (key : string) :
  findHeader None key = None
  /\ (findHeader (Some hs) key = None <->
      forall h, In h hs -> Js.toLowerCase (Header.name h) <> key)
  /\ (forall v, findHeader (Some hs) key = Some v <->
        exists before h after,
          hs = before ++ h :: after
          /\ Js.toLowerCase (Header.name h) = key /\ Header.value h = v
          /\ forall h', In h' before -> Js.toLowerCase (Header.name h') <> key)
  /\ (Js.toLowerCase key = key -> findHeaderIgnoresCase hs key)
  /\ (Js.toLowerCase key <> key -> findHeader (Some hs) key = None).
Proof.
  set (p := fun h => String.eqb (Js.toLowerCase (Header.name h)) key).
  assert (Hp : forall h, p h = false <-> Js.toLowerCase (Header.name h) <> key)
    by (intros h; apply String.eqb_neq).
  assert (Hnone : findHeader (Some hs) key = None <->
                  forall h, In h hs -> Js.toLowerCase (Header.name h) <> key).
  { unfold findHeader. fold p. destruct (List.find p hs) eqn:Hf.
    - split; [done|]. intros H. apply find_some in Hf as [Hin Hh].
      apply H in Hin. apply Hp in Hin. congruence.
    - split; [|done]. intros _ h Hin. apply Hp. by apply (find_none p hs Hf). }
  split; [done|]. split; [exact Hnone|]. split; [|split].
  - intros v. unfold findHeader. fold p. split.
    + destruct (List.find p hs) as [h|] eqn:Hf; [|done]. intros [= <-].
      apply find_first in Hf as (before & after & -> & Hh & Hb).
      exists before, h, after. repeat split; [by apply String.eqb_eq|].
      intros h' Hin. apply Hp. by apply Hb.
    + intros (before & h & after & -> & Hh & <- & Hb).
      assert (Hf : List.find p (before ++ h :: after) = Some h).
      { apply find_first. exists before, after. repeat split.
        - by apply String.eqb_eq.
        - intros y Hy. apply Hp. by apply Hb. }
      by rewrite Hf.
  - intros Hkey. unfold findHeaderIgnoresCase, findHeader, sameName. rewrite Hkey.
    fold p. by destruct (List.find p hs).
  - intros Hkey. apply Hnone. intros h _ Heq. apply Hkey.
    by rewrite <- Heq, toLowerCase_idempotent.
Qed.

(** With a key in lower case the first header of that name is found,
    whatever the case of the stored names. *)
Lemma findHeader_first_match_witness :
  findHeaderIgnoresCase
    [Header.mk "Accept" "x"; Header.mk "Content-Type" "text/html";
     Header.mk "content-type" "text/plain"]
    "content-type".
Proof.
  apply (proj1 (proj2 (proj2 (proj2 (findHeader_first_match
    [Header.mk "Accept" "x"; Header.mk "Content-Type" "text/html";
     Header.mk "content-type" "text/plain"] "content-type"))))).
  reflexivity.
Defined.

(** *** C9: the document type *)

(** C9: without a content-type header the document type is
    [unknown], and one trailing parameter is cut off; but of several
    parameters only the last is cut off, because the capture group is
    greedy: the value keeps the parameters before it. *)
Theorem getDocumentType_keeps_inner_parameters :
  (forall hs, findHeader (Some hs) "content-type" = None -> getDocumentType hs = "unknown")
  /\ getDocumentType [Header.mk "content-type" "application/json; charset=utf-8"]
     = "application/json"
  /\ getDocumentType
       [Header.mk "content-type" "text/html; charset=utf-8; boundary=x"]
     = "text/html; charset=utf-8".
Proof.
  split; [|split; reflexivity].
  intros hs H. unfold getDocumentType. by rewrite H.
Qed.

(** ** The type filter *)

Lemma prefix_spec (p s : string) :
  String.prefix p s = true <-> exists post, s = String.append p post.
Proof.
  revert s. induction p as [|a p IH]; intros s.
  - split; [by exists s|by destruct s].
  - destruct s as [|b s]; cbn [String.prefix].
    + split; [done|]. intros [post H]. discriminate H.
    + destruct (ascii_dec a b) as [->|Hne].
      * rewrite IH. split; intros [post H]; exists post.
        -- change (String b s = String b (String.append p post)). by rewrite H.
        -- change (String b s = String b (String.append p post)) in H. by injection H.
      * split; [done|]. intros [post H].
        change (String b s = String a (String.append p post)) in H. congruence.
Qed.

Lemma includes_unfold (needle hay : string) :
  Js.includes needle hay =
  String.prefix needle hay ||
  match hay with
  | EmptyString => false
  | String _ hay' => Js.includes needle hay'
  end.
Proof. by destruct hay. Qed.

Lemma includes_spec (needle hay : string) :
  Js.includes needle hay = true <-> contains needle hay.
Proof.
  unfold contains. split.
  - induction hay as [|c hay IH]; rewrite includes_unfold, orb_true_iff.
    + intros [H|H]; [|done]. apply prefix_spec in H as [post ->]. by exists EmptyString, post.
    + intros [H|H].
      * apply prefix_spec in H as [post ->]. by exists EmptyString, post.
      * destruct (IH H) as (pre & post & ->). by exists (String c pre), post.
  - intros (pre & post & ->). induction pre as [|c pre IH].
    + rewrite includes_unfold. apply orb_true_iff. left. apply prefix_spec. by exists post.
    + change (Js.includes needle
                (String c (String.append pre (String.append needle post))) = true).
      rewrite includes_unfold, IH. apply orb_true_r.
Qed.

Lemma of_key_spec (s : string) (t : RequestType.t) :
  RequestType.of_key s = Some t <-> RequestType.key t = s.
Proof.
  unfold RequestType.of_key. split.
  - intros H. apply find_some in H as [_ H]. by apply String.eqb_eq.
  - intros <-. by destruct t.
Qed.

Lemma has_spec (types : gset RequestType.t) (s : string) :
  has types s = true <-> exists t, t ∈ types /\ RequestType.key t = s.
Proof.
  unfold has. destruct (RequestType.of_key s) as [t|] eqn:Hk.
  - rewrite bool_decide_eq_true. apply of_key_spec in Hk. split; [by exists t|].
    intros (t' & Ht' & Hk'). rewrite <- Hk in Hk'.
    assert (t' = t) as -> by (by destruct t, t'). done.
  - split; [done|]. intros (t & _ & Ht). apply of_key_spec in Ht. congruence.
Qed.

Lemma matchesTypes_orb (types : gset RequestType.t) (type : string) :
  matchesTypes types type =
  bool_decide (size types = 0%nat)
  || (has types type
      || (bool_decide (RequestType.xhr ∈ types) && Js.includes "json" type
          || (bool_decide (RequestType.font ∈ types)
                && (Js.includes "woff" type || Js.includes "ttf" type)
              || bool_decide (RequestType.img ∈ types)
                 && (Js.includes "svg" type || Js.includes "jpeg" type
                     || Js.includes "png" type || Js.includes "gif" type)))).
Proof.
  unfold matchesTypes.
  destruct (bool_decide (size types = 0%nat)); [done|].
  destruct (has types type); [done|].
  destruct (bool_decide (RequestType.xhr ∈ types) && Js.includes "json" type); [done|].
  destruct (bool_decide (RequestType.font ∈ types)
            && (Js.includes "woff" type || Js.includes "ttf" type)); [done|].
  by destruct (bool_decide (RequestType.img ∈ types)
               && (Js.includes "svg" type || Js.includes "jpeg" type
                   || Js.includes "png" type || Js.includes "gif" type)).
Qed.

(** *** C6: which summaries the type filter keeps *)

(** C6: a summary passes the type filter when the set of requested
    types is empty, and otherwise exactly when its type is a member of
    the set, or the set has [xhr] and the type contains [json], or the
    set has [font] and the type contains [woff] or [ttf], or the set has
    [img] and the type contains [svg], [jpeg], [png] or [gif]; the
    filter stage of the pipeline keeps every summary that passes once,
    in its place, and drops the others. *)
Theorem type_filter_keeps (types : gset RequestType.t) (row : RequestSummary.t)
    (rows1 rows2 : list RequestSummary.t) :
  (types = ∅ -> keepRow types row = true)
  /\ (types <> ∅ ->
      (keepRow types row = true <->
         (exists t, t ∈ types /\ RequestType.key t = RequestSummary.type row)
         \/ (RequestType.xhr ∈ types /\ contains "json" (RequestSummary.type row))
         \/ (RequestType.font ∈ types
             /\ (contains "woff" (RequestSummary.type row)
                 \/ contains "ttf" (RequestSummary.type row)))
         \/ (RequestType.img ∈ types
             /\ (contains "svg" (RequestSummary.type row)
                 \/ contains "jpeg" (RequestSummary.type row)
                 \/ contains "png" (RequestSummary.type row)
                 \/ contains "gif" (RequestSummary.type row)))))
  /\ List.filter (keepRow types) (rows1 ++ row :: rows2)
     = List.filter (keepRow types) rows1
       ++ (if keepRow types row then [row] else [])
       ++ List.filter (keepRow types) rows2
  /\ (forall new_URL requests events,
        partialRequestsToCompleteSummaries new_URL requests events types
        = (rows ← completeSummaries new_URL requests events;
           sort comparePoints (List.filter (keepRow types) rows)))
  /\ matchesTypes {[RequestType.xhr]} "json" = true
  /\ matchesTypes {[RequestType.font]} "woff2" = true
  /\ matchesTypes {[RequestType.img]} "png" = true
  /\ matchesTypes {[RequestType.img]} "json" = false.
Proof.
  split; [|split; [|split; [|split; [done|by vm_compute]]]].
  - intros ->. reflexivity.
  - intros Hne. unfold keepRow.
    assert (Hsize : bool_decide (size types = 0%nat) = false).
    { apply bool_decide_eq_false. intros Hs. apply size_empty_iff in Hs.
      apply Hne. by apply leibniz_equiv. }
    rewrite matchesTypes_orb, Hsize, orb_false_l.
    rewrite !orb_true_iff, !andb_true_iff, !orb_true_iff, !bool_decide_eq_true.
    rewrite !includes_spec, has_spec. tauto.
  - rewrite List.filter_app. cbn [List.filter]. by destruct (keepRow types row).
Qed.

(** With no type requested a summary is kept. *)
Lemma type_filter_keeps_witness :
  keepRow ∅ (clearBodyFlags (RequestSummary.mk "application/json" "a.test" 0 false false
      "1" "GET" "x" (TimeStampedPoint.mk "5" 0) [] [] [] 0 200 0 None "json"
      "https://a.test/x")) = true.
Proof.
  apply (proj1 (type_filter_keeps ∅
    (clearBodyFlags (RequestSummary.mk "application/json" "a.test" 0 false false
      "1" "GET" "x" (TimeStampedPoint.mk "5" 0) [] [] [] 0 200 0 None "json"
      "https://a.test/x")) [] [])).
  reflexivity.
Defined.

(** ** The pipeline on the scenario of the specification *)

(** C7, counterexample: the point of the summary is the point of the
    request record. With a record of request 1 at point 5, the point of
    its request event, the summary is at point 5 and not at point 12,
    the point of the response event. *)
Lemma scenario_point_is_the_records :
  pointsOf (partialRequestsToCompleteSummaries PlainURL.parse
              [recordAt "1" "5"; recordAt "2" "3"]
              (scenarioEvents 100 250 120 [] (RequestOpenEvent.mk "https://b.test/" "GET" []))
              ∅)
  = Ok ["5"]
  /\ pointsOf (partialRequestsToCompleteSummaries PlainURL.parse
                 [recordAt "1" "5"; recordAt "2" "3"]
                 (scenarioEvents 100 250 120 []
                    (RequestOpenEvent.mk "https://b.test/" "GET" []))
                 ∅)
     <> Ok ["12"].
Proof. split; [reflexivity|]. vm_compute. discriminate. Qed.

(** C7, as amended: in the end-to-end scenario (request 1 with a GET
    request event for https://a.test/x?y=1 and a response event of
    status 200 and content type application/json with a charset, at
    points 5 and 12; request 2 with a request event only) and no type
    requested, the pipeline returns exactly one summary, for request 1,
    with domain a.test, name x, the query parameter y=1, document type
    application/json and type json. Its point is the point and time of
    the request record of request 1, which the scenario leaves open, and
    not a point of the events: it is 12 only when that record is at
    point 12. *)
Theorem end_to_end_scenario (new_URL : string -> option URL.t)
    (point1 point2 : string) (time1 time2 : float)
    (trigger1 trigger2 : option TimeStampedPoint.t)
    (tOpen tResponse tOpen2 : float) (requestHeaders : list Header.t)
    (open2 : RequestOpenEvent.t) :
  new_URL "https://a.test/x?y=1"
  = Some {| URL.host := "a.test"; URL.pathname := "/x";
            URL.searchParams := [("y", "1")] |} ->
  partialRequestsToCompleteSummaries new_URL
    [RequestInfo.mk "1" point1 time1 trigger1; RequestInfo.mk "2" point2 time2 trigger2]
    (scenarioEvents tOpen tResponse tOpen2 requestHeaders open2) ∅
  = Ok [ {| RequestSummary.documentType := "application/json";
            RequestSummary.domain := "a.test";
            RequestSummary.end_ := tResponse;
            RequestSummary.hasResponseBody := false;
            RequestSummary.hasRequestBody := false;
            RequestSummary.id := "1";
            RequestSummary.method := "GET";
            RequestSummary.name := "x";
            RequestSummary.point :=
              {| TimeStampedPoint.point := point1; TimeStampedPoint.time := time1 |};
            RequestSummary.queryParams := [("y", "1")];
            RequestSummary.requestHeaders := requestHeaders;
            RequestSummary.responseHeaders :=
              [Header.mk "content-type" "application/json; charset=utf-8"];
            RequestSummary.start := tOpen;
            RequestSummary.status := 200%float;
            RequestSummary.time := PrimFloat.sub tResponse tOpen;
            RequestSummary.triggerPoint := trigger1;
            RequestSummary.type := "json";
            RequestSummary.url := "https://a.test/x?y=1" |} ].
Proof.
  intros Hurl. unfold partialRequestsToCompleteSummaries.
  rewrite completeSummaries_unfold.
  assert (Hown :
    inheritedId (scenarioEvents tOpen tResponse tOpen2 requestHeaders open2) = false)
    by reflexivity.
  rewrite Hown. clear Hown.
  assert (Hrows :
    List.filter (complete (scenarioEvents tOpen tResponse tOpen2 requestHeaders open2))
      [RequestInfo.mk "1" point1 time1 trigger1;
       RequestInfo.mk "2" point2 time2 trigger2]
    = [RequestInfo.mk "1" point1 time1 trigger1])
    by reflexivity.
  rewrite Hrows. clear Hrows. cbn [map mapM].
  assert (Hattach :
    attach (bucketsOf (scenarioEvents tOpen tResponse tOpen2 requestHeaders open2))
      (RequestInfo.mk "1" point1 time1 trigger1)
    = (RequestInfo.mk "1" point1 time1 trigger1,
       RequestEventMap.mk
         (Some (RequestEventInfo.mk "1" "5" tOpen
                  (RequestOpenEvent.mk "https://a.test/x?y=1" "GET" requestHeaders)))
         None None
         (Some (RequestEventInfo.mk "1" "12" tResponse
                  (RequestResponseEvent.mk 200%float
                     [Header.mk "content-type" "application/json; charset=utf-8"])))))
    by (vm_compute; reflexivity).
  rewrite Hattach. clear Hattach.
  unfold summarize, host, name, queryParams, parse. cbn [RequestEventMap.request
    RequestEventMap.response RequestEventInfo.event RequestOpenEvent.requestUrl].
  rewrite Hurl. reflexivity.
Qed.

(** The scenario with the parser [PlainURL.parse] and the record of
    request 1 at point 12. *)
Lemma end_to_end_scenario_witness :
  pointsOf (partialRequestsToCompleteSummaries PlainURL.parse
              [RequestInfo.mk "1" "12" 250 None; RequestInfo.mk "2" "3" 120 None]
              (scenarioEvents 100 250 120 [] (RequestOpenEvent.mk "https://b.test/" "GET" []))
              ∅)
  = Ok ["12"].
Proof.
  rewrite (end_to_end_scenario PlainURL.parse "12" "3" 250 120 None None 100 250 120 []
             (RequestOpenEvent.mk "https://b.test/" "GET" []) eq_refl).
  reflexivity.
Defined.

(** ** The point comparator and the sort *)

Section SortSpec.
Context {A : Type} (cmp : A -> A -> result comparison).
Context (c : A -> A -> comparison) (ok : A -> Prop) (le : A -> A -> Prop).
Hypothesis cmp_ok : forall x y, ok x -> ok y -> cmp x y = Ok (c x y).
Hypothesis le_of_not_Gt : forall x y, c x y <> Gt -> le x y.
Hypothesis le_of_Gt : forall x y, c x y = Gt -> le y x.
Hypothesis le_trans : forall x y z, le x y -> le y z -> le x z.

Lemma insert_sorted_spec (x : A) (l : list A) :
  ok x -> Forall ok l -> StronglySorted le l ->
  exists out, insert_sorted cmp x l = Ok out
              /\ Permutation (x :: l) out /\ StronglySorted le out.
Proof.
  intros Hx Hl Hs. induction l as [|y l IH]; cbn.
  - exists [x]. repeat split; [done|]. repeat constructor.
  - apply Forall_cons in Hl as [Hy Hl]. apply StronglySorted_inv in Hs as [Hs Hyl].
    rewrite (cmp_ok x y Hx Hy). result_simpl.
    destruct (c x y) eqn:Hc.
    1, 2: exists (x :: y :: l); repeat split; [done|];
      assert (Hxy : le x y) by (apply le_of_not_Gt; congruence);
      constructor; [by constructor|];
      constructor; [done|]; eapply Forall_impl; [exact Hyl|]; cbn; eauto.
    destruct (IH Hl Hs) as (out & -> & Hperm & Hsorted). result_simpl.
    exists (y :: out). repeat split.
    + rewrite perm_swap. by constructor.
    + constructor; [done|]. rewrite <- Hperm. constructor; [|done]. by apply le_of_Gt.
Qed.

Lemma sort_spec (l : list A) :
  Forall ok l ->
  exists out, sort cmp l = Ok out /\ Permutation l out /\ StronglySorted le out.
Proof.
  induction 1 as [|x l Hx Hl (s & Hs & Hperm & Hsorted)]; cbn.
  - exists []. repeat split; [done|]. constructor.
  - rewrite Hs. result_simpl.
    assert (Hok : Forall ok s) by (by rewrite <- Hperm).
    destruct (insert_sorted_spec x s Hx Hok Hsorted) as (out & Hout & Hp & Hso).
    exists out. repeat split; [done| |done]. by rewrite <- Hp, Hperm.
Qed.
End SortSpec.

Lemma ascii_compare_N (a b : ascii) :
  Ascii.compare a b = N.compare (N_of_ascii a) (N_of_ascii b).
Proof. reflexivity. Qed.

Lemma string_compare_le_trans (a b c : string) :
  String.compare a b <> Gt -> String.compare b c <> Gt -> String.compare a c <> Gt.
Proof.
  revert b c. induction a as [|x a IH]; intros [|y b] [|z c]; cbn; try done.
  rewrite !ascii_compare_N.
  destruct (N.compare_spec (N_of_ascii x) (N_of_ascii y)),
           (N.compare_spec (N_of_ascii y) (N_of_ascii z)),
           (N.compare_spec (N_of_ascii x) (N_of_ascii z));
    try done; try lia. apply IH.
Qed.

Lemma pointLe_trans (a b c : string) : pointLe a b -> pointLe b c -> pointLe a c.
Proof.
  unfold pointLe. intros [Hab|[Hab Hab']] [Hbc|[Hbc Hbc']].
  - left. lia.
  - left. lia.
  - left. lia.
  - right. split; [lia|]. by apply string_compare_le_trans with b.
Qed.

Lemma lengthThenLex_not_Gt (a b : string) : lengthThenLex a b <> Gt -> pointLe a b.
Proof.
  unfold lengthThenLex, pointLe.
  destruct (Nat.ltb_spec (String.length a) (String.length b)); [by left|].
  destruct (Nat.ltb_spec (String.length b) (String.length a)); [done|].
  right. split; [lia|done].
Qed.

Lemma lengthThenLex_Gt (a b : string) : lengthThenLex a b = Gt -> pointLe b a.
Proof.
  unfold lengthThenLex, pointLe.
  destruct (Nat.ltb_spec (String.length a) (String.length b)); [done|].
  destruct (Nat.ltb_spec (String.length b) (String.length a)); [by left|].
  intros Hc. right. split; [lia|]. rewrite String.compare_antisym, Hc. done.
Qed.

Lemma compareNumericStrings_valid (a b : string) :
  validPoint a = true -> validPoint b = true ->
  compareNumericStrings a b = Ok (lengthThenLex a b).
Proof. intros Ha Hb. unfold compareNumericStrings. by rewrite Ha, Hb. Qed.

Lemma sort_comparePoints_spec (l : list RequestSummary.t) :
  Forall (fun s => validPoint (summaryPoint s) = true) l ->
  exists out, sort comparePoints l = Ok out
              /\ Permutation l out
              /\ StronglySorted (fun a b => pointLe (summaryPoint a) (summaryPoint b)) out.
Proof.
  apply (sort_spec comparePoints
           (fun a b => lengthThenLex (summaryPoint a) (summaryPoint b))).
  - intros x y Hx Hy. by apply compareNumericStrings_valid.
  - intros x y. apply lengthThenLex_not_Gt.
  - intros x y. apply lengthThenLex_Gt.
  - intros x y z. apply pointLe_trans.
Qed.

(** *** The order of the comparator and the numeric order *)

Lemma isDigit_bounds (c : ascii) :
  isDigit c = true -> (48 <= N_of_ascii c <= 57)%N.
Proof. unfold isDigit. cbn. rewrite andb_true_iff, !N.leb_le. done. Qed.

Lemma numericValue_lt (s : string) :
  allDigits s = true -> (numericValue s < 10 ^ N.of_nat (String.length s))%N.
Proof.
  induction s as [|c s IH]; cbn [allDigits numericValue String.length]; [by cbn|].
  rewrite andb_true_iff. intros [Hc Hs]. apply isDigit_bounds in Hc. specialize (IH Hs).
  rewrite Nat2N.inj_succ, N.pow_succ_r'. unfold digitValue.
  set (P := (10 ^ N.of_nat (String.length s))%N) in *. nia.
Qed.

Lemma compare_numeric (a b : string) :
  allDigits a = true -> allDigits b = true -> String.length a = String.length b ->
  String.compare a b = N.compare (numericValue a) (numericValue b).
Proof.
  revert b. induction a as [|x a IH]; intros [|y b]; cbn [String.length]; try done.
  cbn [allDigits numericValue String.compare]. rewrite !andb_true_iff.
  intros [Hx Ha] [Hy Hb] [= Hlen]. rewrite <- Hlen.
  apply isDigit_bounds in Hx, Hy.
  pose proof (numericValue_lt a Ha) as Hva. pose proof (numericValue_lt b Hb) as Hvb.
  rewrite <- Hlen in Hvb. rewrite ascii_compare_N. unfold digitValue.
  set (P := (10 ^ N.of_nat (String.length a))%N) in *.
  destruct (N.compare_spec (N_of_ascii x) (N_of_ascii y)) as [Heq|Hlt|Hgt].
  - rewrite Heq, (IH b Ha Hb Hlen).
    destruct (N.compare_spec (numericValue a) (numericValue b)); symmetry;
      [apply N.compare_eq_iff|apply N.compare_lt_iff|apply N.compare_gt_iff]; lia.
  - symmetry. apply N.compare_lt_iff. nia.
  - symmetry. apply N.compare_gt_iff. nia.
Qed.

Lemma validPoint_allDigits (s : string) :
  validPoint s = true -> allDigits s = true /\ (1 <= String.length s)%nat.
Proof.
  unfold validPoint. rewrite andb_true_iff. intros [Hs Hd]. split; [done|].
  destruct s; [done|]. cbn. lia.
Qed.

Lemma canonicalPoint_valid (s : string) : canonicalPoint s = true -> validPoint s = true.
Proof. unfold canonicalPoint. rewrite andb_true_iff. by intros []. Qed.

Lemma canonicalPoint_lower (s : string) :
  canonicalPoint s = true -> (2 <= String.length s)%nat ->
  (10 ^ N.of_nat (String.length s - 1) <= numericValue s)%N.
Proof.
  unfold canonicalPoint, validPoint. destruct s as [|c [|c' s]]; cbn [String.length]; try lia.
  rewrite !andb_true_iff. cbn [Js.truthy allDigits]. rewrite !andb_true_iff.
  intros [[_ [Hc _]] Hz] _. apply isDigit_bounds in Hc.
  assert (N_of_ascii c <> 48%N).
  { intros H48. apply negb_true_iff, Ascii.eqb_neq in Hz. apply Hz.
    rewrite <- (ascii_N_embedding c), H48. reflexivity. }
  cbn [numericValue String.length]. unfold digitValue.
  replace (S (S (String.length s)) - 1)%nat with (S (String.length s)) by lia.
  set (P := (10 ^ N.of_nat (S (String.length s)))%N).
  set (v := (digitValue c' * 10 ^ N.of_nat (String.length s) + numericValue s)%N).
  fold (digitValue c'). fold v. nia.
Qed.

Lemma shorter_is_smaller (a b : string) :
  canonicalPoint a = true -> canonicalPoint b = true ->
  (String.length a < String.length b)%nat -> (numericValue a < numericValue b)%N.
Proof.
  intros Ha Hb Hlen.
  destruct (validPoint_allDigits a (canonicalPoint_valid a Ha)) as [Hda Hla].
  pose proof (numericValue_lt a Hda) as Hva.
  pose proof (canonicalPoint_lower b Hb ltac:(lia)) as Hvb.
  assert (10 ^ N.of_nat (String.length a) <= 10 ^ N.of_nat (String.length b - 1))%N
    by (apply N.pow_le_mono_r; lia).
  lia.
Qed.

Lemma pointLe_numeric (a b : string) :
  canonicalPoint a = true -> canonicalPoint b = true ->
  (pointLe a b <-> (numericValue a <= numericValue b)%N).
Proof.
  intros Ha Hb.
  destruct (validPoint_allDigits a (canonicalPoint_valid a Ha)) as [Hda _].
  destruct (validPoint_allDigits b (canonicalPoint_valid b Hb)) as [Hdb _].
  unfold pointLe. split.
  - intros [Hlt|[Heq Hc]].
    + pose proof (shorter_is_smaller a b Ha Hb Hlt). lia.
    + rewrite (compare_numeric a b Hda Hdb Heq) in Hc. by apply N.compare_le_iff.
  - intros Hle.
    destruct (Nat.lt_trichotomy (String.length a) (String.length b)) as [Hlt|[Heq|Hgt]].
    + by left.
    + right. split; [done|]. rewrite (compare_numeric a b Hda Hdb Heq).
      by apply N.compare_le_iff.
    + pose proof (shorter_is_smaller b a Hb Ha Hgt). lia.
Qed.

(** *** C8: the output is sorted by point *)

(** C8: on valid points (non-empty strings of digits) the comparator
    puts the shorter string first and compares strings of one length
    lexicographically; on points with no leading zero this is the order
    of the numbers they denote. When the points of the records are
    valid and the summaries are derived, the pipeline returns the
    summaries that pass the type filter, rearranged in ascending order
    of their points for that comparison. Summaries at the points 100,
    20 and 9 come out in the order 9, 20, 100. *)
Theorem summaries_sorted_by_point :
  (forall a b, validPoint a = true -> validPoint b = true ->
     compareNumericStrings a b = Ok (lengthThenLex a b)
     /\ ((String.length a < String.length b)%nat -> lengthThenLex a b = Lt)
     /\ ((String.length b < String.length a)%nat -> lengthThenLex a b = Gt)
     /\ (String.length a = String.length b -> lengthThenLex a b = String.compare a b))
  /\ (forall a b, canonicalPoint a = true -> canonicalPoint b = true ->
        (pointLe a b <-> (numericValue a <= numericValue b)%N))
  /\ (forall new_URL requests events types rows,
        Forall (fun r => validPoint (RequestInfo.point r) = true) requests ->
        completeSummaries new_URL requests events = Ok rows ->
        exists out,
          partialRequestsToCompleteSummaries new_URL requests events types = Ok out
          /\ Permutation (List.filter (keepRow types) rows) out
          /\ StronglySorted (fun a b => pointLe (summaryPoint a) (summaryPoint b)) out)
  /\ pointsOf (partialRequestsToCompleteSummaries PlainURL.parse
                 threeRecords threeExchanges ∅)
     = Ok ["9"; "20"; "100"].
Proof.
  split; [|split; [exact pointLe_numeric|split; [|reflexivity]]].
  - intros a b Ha Hb. split; [by apply compareNumericStrings_valid|].
    unfold lengthThenLex. repeat split; intros Hlen.
    + by apply Nat.ltb_lt in Hlen as ->.
    + assert (Nat.ltb (String.length a) (String.length b) = false) as ->
        by (apply Nat.ltb_ge; lia).
      by apply Nat.ltb_lt in Hlen as ->.
    + by rewrite Hlen, Nat.ltb_irrefl.
  - intros new_URL requests events types rows Hvalid Hrows.
    unfold partialRequestsToCompleteSummaries. rewrite Hrows. result_simpl.
    apply sort_comparePoints_spec.
    assert (Hall : Forall (fun s => validPoint (summaryPoint s) = true) rows).
    { apply completeSummaries_Ok in Hrows.
      assert (Hrs : Forall (fun r => validPoint (RequestInfo.point r) = true)
                      (List.filter (complete events) requests)).
      { apply List.Forall_forall. intros r Hr. apply filter_In in Hr as [Hr _].
        rewrite List.Forall_forall in Hvalid. by apply Hvalid. }
      clear Hvalid. induction Hrows as [|r s rs sums (_ & Hp & _) _ IH]; [constructor|].
      apply Forall_cons in Hrs as [Hr Hrs]. constructor; [|by apply IH].
      unfold summaryPoint. by rewrite Hp. }
    apply List.Forall_forall. intros s Hs. apply filter_In in Hs as [Hs _].
    rewrite List.Forall_forall in Hall. by apply Hall.
Qed.

(** The three exchanges at the points 100, 20 and 9. *)
Lemma summaries_sorted_by_point_witness :
  exists rows out,
    completeSummaries PlainURL.parse threeRecords threeExchanges = Ok rows
    /\ partialRequestsToCompleteSummaries PlainURL.parse threeRecords threeExchanges ∅
       = Ok out
    /\ Permutation (List.filter (keepRow ∅) rows) out
    /\ StronglySorted (fun a b => pointLe (summaryPoint a) (summaryPoint b)) out.
Proof.
  destruct (completeSummaries PlainURL.parse threeRecords threeExchanges)
    as [rows|e] eqn:Hrows; [|discriminate].
  exists rows.
  destruct (proj1 (proj2 (proj2 summaries_sorted_by_point))
              PlainURL.parse threeRecords threeExchanges ∅ rows) as (out & Hout);
    [repeat constructor|exact Hrows|].
  exists out. split; [reflexivity|exact Hout].
Defined.

(** * Further properties of the utilities *)

(** ** Grouping *)

(** X1: in the map that [eventsToMap] builds from a list of events, the
    entry of a kind is the last event of that kind in the list, and
    there is an entry exactly for the kinds that occur; a list that is
    [undefined] gives the map with no entry. *)
Theorem eventsToMap_keeps_last_of_kind (es : list EventInfo) (k : Kind.t) :
  RequestEventMap.lookup k (eventsToMap (Some es))
  = List.find (fun e => Kind.eqb (kind (RequestEventInfo.event e)) k) (rev es)
  /\ (forall es', RequestEventMap.lookup k (eventsToMap (Some (es ++ es')))
                  = match RequestEventMap.lookup k (eventsToMap (Some es')) with
                    | Some e => Some e
                    | None => RequestEventMap.lookup k (eventsToMap (Some es))
                    end)
  /\ RequestEventMap.lookup k (eventsToMap None) = None.
Proof.
  assert (Hone : forall l, RequestEventMap.lookup k (eventsToMap (Some l))
    = List.find (fun e => Kind.eqb (kind (RequestEventInfo.event e)) k) (rev l)).
  { intros l. unfold eventsToMap. rewrite lookup_fold_assign.
    destruct (List.find _ (rev l)); [done|]. by destruct k. }
  split; [apply Hone|]. split; [|by destruct k].
  intros es'. rewrite !Hone, rev_app_distr, find_append.
  by destruct (List.find _ (rev es')).
Qed.

Lemma eventsOf_In (events : list EventInfo) (i : string) (e : EventInfo) :
  In e (eventsOf i events) <-> In e events /\ RequestEventInfo.id e = i.
Proof.
  unfold eventsOf. rewrite filter_In. split; intros [H1 H2]; split; try done.
  - by apply String.eqb_eq.
  - by apply String.eqb_eq.
Qed.

(** X2: [eventsByRequestId] returns whenever no event has an id that is
    a property name of [Object.prototype], and what it returns
    partitions the events by id: no bucket is empty, no key is such a
    property name, the bucket of an id holds the events of that id and
    no other, each as often as the input does, and every event of the
    input is in the bucket of its id. *)
Theorem eventsByRequestId_partition (events : list EventInfo) :
  (inheritedId events = false -> exists eventsMap, eventsByRequestId events = Ok eventsMap)
  /\ (forall eventsMap, eventsByRequestId events = Ok eventsMap ->
        (forall i b, eventsMap !! i = Some b ->
           b <> [] /\ Js.inherited i = false /\ Permutation b (eventsOf i events)
           /\ forall e, In e b <-> In e events /\ RequestEventInfo.id e = i)
        /\ (forall e, In e events ->
              exists b, eventsMap !! RequestEventInfo.id e = Some b /\ In e b)).
Proof.
  split.
  { intros Hown. exists (bucketsOf events). by rewrite eventsByRequestId_unfold, Hown. }
  intros eventsMap Hmap. apply eventsByRequestId_Ok in Hmap as [Hown ->]. split.
  - intros i b. rewrite bucketsOf_lookup.
    destruct (eventsOf i events) as [|x l] eqn:Hb; [done|]. intros [= <-].
    change (rev l ++ [x]) with (rev (x :: l)).
    split; [|split; [|split]].
    + intros Hrev. apply (f_equal (@rev _)) in Hrev.
      rewrite rev_involutive in Hrev. discriminate.
    + assert (Hx : In x events /\ RequestEventInfo.id x = i)
        by (apply eventsOf_In; rewrite Hb; by left).
      destruct Hx as [Hx <-].
      destruct (Js.inherited (RequestEventInfo.id x)) eqn:Hi; [|done].
      assert (Hex : inheritedId events = true)
        by (apply existsb_exists; by exists x).
      congruence.
    + symmetry. apply Permutation_rev.
    + intros e. rewrite <- in_rev, <- Hb. apply eventsOf_In.
  - intros e He. rewrite bucketsOf_lookup.
    assert (Hin : In e (eventsOf (RequestEventInfo.id e) events))
      by (by apply eventsOf_In).
    destruct (eventsOf (RequestEventInfo.id e) events) as [|x l]; [done|].
    eexists. split; [done|]. by apply in_rev in Hin.
Qed.

(** The four events of [brokenAndSound]: each is in the bucket of its
    id. *)
Lemma eventsByRequestId_partition_witness :
  exists eventsMap,
    eventsByRequestId brokenAndSound = Ok eventsMap
    /\ forall e, In e brokenAndSound ->
         exists b, eventsMap !! RequestEventInfo.id e = Some b /\ In e b.
Proof.
  destruct (proj1 (eventsByRequestId_partition brokenAndSound) eq_refl)
    as [eventsMap Hmap].
  exists eventsMap. split; [exact Hmap|].
  exact (proj2 (proj2 (eventsByRequestId_partition brokenAndSound) eventsMap Hmap)).
Defined.

(** ** Which events the summaries depend on *)

Lemma completeSummaries_ext_on (new_URL : string -> option URL.t)
    (requests : list RequestInfo.t) (events1 events2 : list EventInfo) :
  inheritedId events1 = inheritedId events2 ->
  (forall r k, In r requests ->
     List.find (isOf (RequestInfo.id r) k) events1
     = List.find (isOf (RequestInfo.id r) k) events2) ->
  completeSummaries new_URL requests events1 = completeSummaries new_URL requests events2.
Proof.
  intros Hinh H. unfold completeSummaries. rewrite !eventsByRequestId_unfold, Hinh.
  destruct (inheritedId events2); [done|]. unfold mbind, result_bind.
  do 2 f_equal. apply map_ext_in.
  intros r Hr. rewrite !attach_lookup. f_equal. apply RequestEventMap_ext. intros k.
  rewrite !lookup_bucketsOf. apply (H r k Hr).
Qed.

(** X3: an event whose id and kind an earlier event already has is
    ignored: the pipeline returns what it returns without it. *)
Theorem repeated_event_is_ignored (new_URL : string -> option URL.t)
    (requests : list RequestInfo.t) (before after : list EventInfo) (e : EventInfo)
    (types : gset RequestType.t) :
  hasEvent before (RequestEventInfo.id e) (kind (RequestEventInfo.event e)) = true ->
  partialRequestsToCompleteSummaries new_URL requests (before ++ e :: after) types
  = partialRequestsToCompleteSummaries new_URL requests (before ++ after) types.
Proof.
  intros Hseen. unfold partialRequestsToCompleteSummaries.
  unfold hasEvent in Hseen. apply existsb_exists in Hseen as (e' & Hin & He').
  rewrite (completeSummaries_ext_on new_URL requests (before ++ e :: after) (before ++ after));
    [done| |].
  - rewrite !inheritedId_app. cbn [inheritedId existsb]. fold (inheritedId after).
    destruct (Js.inherited (RequestEventInfo.id e)) eqn:Hi; [|done].
    assert (Hb : inheritedId before = true).
    { apply existsb_exists. exists e'. split; [done|].
      unfold isOf in He'. apply andb_true_iff in He' as [Hi' _].
      apply String.eqb_eq in Hi'. by rewrite Hi'. }
    by rewrite Hb.
  - intros r k _. rewrite !find_append.
    destruct (List.find (isOf (RequestInfo.id r) k) before) eqn:Hfind; [done|].
    cbn [List.find]. destruct (isOf (RequestInfo.id r) k e) eqn:He; [|done].
    exfalso.
    pose proof (find_none _ _ Hfind e' Hin) as Hno.
    unfold isOf in *. apply andb_true_iff in He as [Hi Hk], He' as [Hi' Hk'].
    apply String.eqb_eq in Hi, Hi'.
    assert (Hkk : kind (RequestEventInfo.event e') = kind (RequestEventInfo.event e))
      by (by destruct (kind (RequestEventInfo.event e')), (kind (RequestEventInfo.event e))).
    rewrite Hi', <- Hi, String.eqb_refl, Hkk, Hk in Hno. discriminate.
Qed.

(** Two request events of request 2: the second one changes nothing. *)
Lemma repeated_event_is_ignored_witness :
  partialRequestsToCompleteSummaries PlainURL.parse [recordAt "2" "7"]
    (brokenAndSound ++ openAt "2" "9" "not a url" :: []) ∅
  = partialRequestsToCompleteSummaries PlainURL.parse [recordAt "2" "7"]
      (brokenAndSound ++ []) ∅.
Proof.
  apply (repeated_event_is_ignored PlainURL.parse [recordAt "2" "7"] brokenAndSound []
           (openAt "2" "9" "not a url") ∅).
  reflexivity.
Defined.

(** X4: the events of requests that have no record are ignored, as
    long as none of them has an id that is a property name of
    [Object.prototype]: the pipeline then returns the same on the
    events of its records alone. When one of them has such an id, the
    pipeline throws a [TypeError], whatever the records are. *)
Theorem events_of_other_requests_are_ignored (new_URL : string -> option URL.t)
    (requests : list RequestInfo.t) (events : list EventInfo)
    (types : gset RequestType.t) :
  (inheritedId (foreignEvents requests events) = false ->
   partialRequestsToCompleteSummaries new_URL requests events types
   = partialRequestsToCompleteSummaries new_URL requests
       (List.filter (ofSomeRecord requests) events) types)
  /\ (inheritedId (foreignEvents requests events) = true ->
      partialRequestsToCompleteSummaries new_URL requests events types
      = Throw TypeError).
Proof.
  pose proof (inheritedId_divide (ofSomeRecord requests) events) as Hdiv.
  fold (foreignEvents requests events) in Hdiv. split.
  - intros Hforeign. rewrite Hforeign, orb_false_r in Hdiv.
    unfold partialRequestsToCompleteSummaries.
    rewrite (completeSummaries_ext_on new_URL requests events
               (List.filter (ofSomeRecord requests) events)); [done|done|].
    intros r k Hr. rewrite find_filter.
    apply find_ext_in. intros e _. unfold isOf, ofSomeRecord.
    destruct (String.eqb_spec (RequestEventInfo.id e) (RequestInfo.id r)) as [Heq|];
      [|by rewrite andb_false_r].
    cbn [andb]. symmetry.
    assert (Hex : existsb (fun r0 => String.eqb (RequestEventInfo.id e) (RequestInfo.id r0))
                    requests = true).
    { apply existsb_exists. exists r. split; [done|]. by apply String.eqb_eq. }
    by rewrite Hex.
  - intros Hforeign. rewrite Hforeign, orb_true_r in Hdiv.
    unfold partialRequestsToCompleteSummaries.
    by rewrite completeSummaries_unfold, Hdiv.
Qed.

(** The record of request 2 alone: the events of request 1 are
    foreign, and ignored. *)
Lemma events_of_other_requests_are_ignored_witness :
  partialRequestsToCompleteSummaries PlainURL.parse [recordAt "2" "7"] brokenAndSound ∅
  = partialRequestsToCompleteSummaries PlainURL.parse [recordAt "2" "7"]
      (List.filter (ofSomeRecord [recordAt "2" "7"]) brokenAndSound) ∅.
Proof.
  apply (proj1 (events_of_other_requests_are_ignored PlainURL.parse [recordAt "2" "7"]
                  brokenAndSound ∅)).
  reflexivity.
Defined.

(** ** How the pipeline treats its records *)

Lemma mapM_app {A B : Type} (f : A -> result B) (l1 l2 : list A) :
  mapM f (l1 ++ l2) = (bs1 ← mapM f l1; bs2 ← mapM f l2; mret (bs1 ++ bs2)).
Proof.
  induction l1 as [|a l1 IH]; cbn [app mapM].
  - result_simpl. by destruct (mapM f l2).
  - rewrite IH. destruct (f a); result_simpl; [|done].
    destruct (mapM f l1); result_simpl; [|done]. by destruct (mapM f l2).
Qed.

(** X5: the records are summarized one by one: the summaries of a list
    of records put after another are the summaries of the first list
    followed by those of the second (records of one id are not merged),
    and an exception of either part is the exception of the whole. *)
Theorem completeSummaries_of_concatenation (new_URL : string -> option URL.t)
    (requests1 requests2 : list RequestInfo.t) (events : list EventInfo) :
  completeSummaries new_URL (requests1 ++ requests2) events
  = (sums1 ← completeSummaries new_URL requests1 events;
     sums2 ← completeSummaries new_URL requests2 events;
     mret (sums1 ++ sums2)).
Proof.
  rewrite !completeSummaries_unfold. destruct (inheritedId events); [done|].
  by rewrite List.filter_app, map_app, mapM_app.
Qed.

(** X6: with no event at all the pipeline returns the empty list,
    whatever the records and the types are. With no record it still
    groups the events first: it returns the empty list, unless some
    event has an id that is a property name of [Object.prototype], on
    which it throws a [TypeError]. *)
Theorem nothing_to_correlate (new_URL : string -> option URL.t)
    (requests : list RequestInfo.t) (events : list EventInfo)
    (types : gset RequestType.t) :
  partialRequestsToCompleteSummaries new_URL requests [] types = Ok []
  /\ partialRequestsToCompleteSummaries new_URL [] events types
     = (if inheritedId events then Throw TypeError else Ok []).
Proof.
  unfold partialRequestsToCompleteSummaries. rewrite !completeSummaries_unfold. split.
  - assert (Hnone : List.filter (complete []) requests = []).
    { induction requests as [|r requests IH]; [done|]. exact IH. }
    cbn [inheritedId existsb]. by rewrite Hnone.
  - by destruct (inheritedId events).
Qed.

(** ** What the output holds *)

Section SortPermutation.
Context {A : Type} (cmp : A -> A -> result comparison).

Lemma insert_sorted_Permutation (x : A) (l out : list A) :
  insert_sorted cmp x l = Ok out -> Permutation (x :: l) out.
Proof.
  revert out. induction l as [|y l IH]; intros out; cbn.
  - by intros [= <-].
  - destruct (cmp x y) as [[]|]; result_simpl; try (by intros [= <-]).
    destruct (insert_sorted cmp x l) as [r|]; result_simpl; [|done].
    intros [= <-]. rewrite perm_swap. constructor. by apply IH.
Qed.

Lemma sort_Permutation (l out : list A) : sort cmp l = Ok out -> Permutation l out.
Proof.
  revert out. induction l as [|x l IH]; intros out; cbn.
  - by intros [= <-].
  - destruct (sort cmp l) as [s|]; result_simpl; [|done].
    intros H. apply insert_sorted_Permutation in H. rewrite <- H.
    constructor. by apply IH.
Qed.
End SortPermutation.

Lemma summarize_consistent (new_URL : string -> option URL.t)
    (row : RequestInfo.t * RequestEventMap.t) (s : RequestSummary.t) :
  summarize new_URL row = Ok s -> consistentSummary new_URL s.
Proof.
  destruct row as [r [[rq|] rb qb [rs|]]];
    unfold summarize, host, name, queryParams, parse; cbn; try done.
  destruct (new_URL (RequestOpenEvent.requestUrl (RequestEventInfo.event rq)))
    as [u|] eqn:Hu; result_simpl; [|done].
  intros [= <-]. unfold consistentSummary. cbn. repeat split. by exists u.
Qed.

Lemma output_of_rows (new_URL : string -> option URL.t)
    (requests : list RequestInfo.t) (events : list EventInfo)
    (types : gset RequestType.t) (out : list RequestSummary.t) :
  partialRequestsToCompleteSummaries new_URL requests events types = Ok out ->
  exists rows, completeSummaries new_URL requests events = Ok rows
               /\ Permutation (List.filter (keepRow types) rows) out.
Proof.
  unfold partialRequestsToCompleteSummaries.
  destruct (completeSummaries new_URL requests events) as [rows|]; result_simpl; [|done].
  intros H. exists rows. split; [done|]. by apply sort_Permutation in H.
Qed.

(** X7: every summary that the pipeline returns is consistent in
    itself: its document type is the one of its response headers, its
    type the one derived from that document type, its duration the end
    time minus the start time, and its domain, name and query
    parameters are those of its url, which parses. *)
Theorem output_summaries_are_consistent (new_URL : string -> option URL.t)
    (requests : list RequestInfo.t) (events : list EventInfo)
    (types : gset RequestType.t) (out : list RequestSummary.t) :
  partialRequestsToCompleteSummaries new_URL requests events types = Ok out ->
  Forall (consistentSummary new_URL) out.
Proof.
  intros H. apply output_of_rows in H as (rows & Hrows & Hperm).
  rewrite <- Hperm. apply List.Forall_forall. intros s Hs.
  apply filter_In in Hs as [Hs _].
  apply completeSummaries_each in Hrows. rewrite List.Forall_forall in Hrows.
  destruct (Hrows s Hs) as [row Hrow]. by apply summarize_consistent in Hrow.
Qed.

(** The three exchanges of [threeExchanges]. *)
Lemma output_summaries_are_consistent_witness :
  exists out,
    partialRequestsToCompleteSummaries PlainURL.parse threeRecords threeExchanges ∅
    = Ok out
    /\ Forall (consistentSummary PlainURL.parse) out.
Proof.
  destruct (partialRequestsToCompleteSummaries PlainURL.parse threeRecords
              threeExchanges ∅) as [out|e] eqn:Hout; [|discriminate].
  exists out. split; [reflexivity|].
  exact (output_summaries_are_consistent PlainURL.parse threeRecords threeExchanges ∅
           out Hout).
Defined.

(** X8: the pipeline invents and repeats nothing. When it returns, the
    summaries before the type filter stand one for one, and in the
    same order, for the complete records of the input, and the output
    is a rearrangement of those of them that pass the type filter: of
    all of them when no type is requested. So the output is no longer
    than the number of complete records, and each summary in it
    belongs to a complete record of the input. *)
Theorem output_comes_from_complete_records (new_URL : string -> option URL.t)
    (requests : list RequestInfo.t) (events : list EventInfo)
    (types : gset RequestType.t) (out : list RequestSummary.t) :
  partialRequestsToCompleteSummaries new_URL requests events types = Ok out ->
  (exists rows,
     completeSummaries new_URL requests events = Ok rows
     /\ Forall2 (summaryOfRecord events) (List.filter (complete events) requests) rows
     /\ Permutation (List.filter (keepRow types) rows) out
     /\ (types = ∅ -> Permutation rows out))
  /\ length out <= length (List.filter (complete events) requests)
  /\ (forall s, In s out ->
        exists r, In r requests /\ complete events r = true
                  /\ summaryOfRecord events r s)
  /\ (types = ∅ -> length out = length (List.filter (complete events) requests)).
Proof.
  intros H. apply output_of_rows in H as (rows & Hrows & Hperm).
  pose proof (completeSummaries_Ok _ _ _ _ Hrows) as Hrecords.
  pose proof (Forall2_length _ _ _ Hrecords) as Hlen.
  assert (Hall : forall l : list RequestSummary.t, List.filter (keepRow ∅) l = l).
  { induction l as [|s l IH]; [done|]. cbn. by rewrite IH. }
  split; [|split; [|split]].
  - exists rows. split; [done|]. split; [done|]. split; [done|].
    intros ->. by rewrite Hall in Hperm.
  - rewrite <- Hperm, Hlen. apply List.filter_length_le.
  - intros s Hs. rewrite <- Hperm in Hs. apply filter_In in Hs as [Hs _].
    clear Hperm Hlen Hrows.
    assert (Hin : forall r, In r (List.filter (complete events) requests) ->
                            In r requests /\ complete events r = true)
      by (intros r Hr; by apply filter_In in Hr).
    induction Hrecords as [|r s' rs sums Hr _ IH]; [done|].
    destruct Hs as [->|Hs].
    + exists r. destruct (Hin r) as [? ?]; [by left|]. done.
    + apply IH; [done|]. intros r' Hr'. apply Hin. by right.
  - intros ->. by rewrite <- Hperm, Hlen, Hall.
Qed.

(** The three exchanges of [threeExchanges], with no type requested:
    the output is a rearrangement of the three summaries. *)
Lemma output_comes_from_complete_records_witness :
  exists out rows,
    partialRequestsToCompleteSummaries PlainURL.parse threeRecords threeExchanges ∅
    = Ok out
    /\ completeSummaries PlainURL.parse threeRecords threeExchanges = Ok rows
    /\ Permutation rows out.
Proof.
  destruct (partialRequestsToCompleteSummaries PlainURL.parse threeRecords
              threeExchanges ∅) as [out|e] eqn:Hout; [|discriminate].
  destruct (proj1 (output_comes_from_complete_records PlainURL.parse threeRecords
                     threeExchanges ∅ out Hout)) as (rows & Hrows & _ & _ & Hperm).
  exists out, rows. split; [reflexivity|]. split; [exact Hrows|exact (Hperm eq_refl)].
Defined.

(** X9: asking for more types never hides a summary: a type that a
    non-empty set of requested types keeps is kept by every larger
    set; and the empty set keeps every type, so that it keeps more
    than any other set. *)
Theorem wider_filter_keeps_more (types types' : gset RequestType.t) (type : string) :
  (types <> ∅ -> types ⊆ types' ->
   matchesTypes types type = true -> matchesTypes types' type = true)
  /\ matchesTypes ∅ type = true.
Proof.
  split; [|reflexivity]. intros Hne Hsub.
  assert (Hsize : bool_decide (size types = 0%nat) = false).
  { apply bool_decide_eq_false. intros Hs. apply size_empty_iff in Hs.
    apply Hne. by apply leibniz_equiv. }
  rewrite !matchesTypes_orb, Hsize, orb_false_l.
  rewrite !orb_true_iff, !andb_true_iff, !bool_decide_eq_true, !has_spec.
  intros [(t & Ht & Hk)|[[Hx Hj]|[[Hf Hw]|[Hi Hg]]]].
  - right. left. exists t. split; [by apply Hsub|done].
  - right. right. left. split; [by apply Hsub|done].
  - right. right. right. left. split; [by apply Hsub|done].
  - right. right. right. right. split; [by apply Hsub|done].
Qed.

(** The set with [img] alone inside the set with [img] and [font]. *)
Lemma wider_filter_keeps_more_witness :
  matchesTypes {[RequestType.img; RequestType.font]} "png" = true.
Proof.
  apply (proj1 (wider_filter_keeps_more {[RequestType.img]}
                  {[RequestType.img; RequestType.font]} "png")).
  - intros H. apply (f_equal size) in H. vm_compute in H. discriminate.
  - set_solver.
  - reflexivity.
Defined.

(** ** The document type and the content type *)


Lemma match_chop_None_iff (s : string) :
  match_chop s = None <-> delimiterFree s = true.
Proof.
  induction s as [|c s IH]; cbn; [done|].
  destruct (Js.isLineTerminator c); [done|].
  destruct (match_chop s) as [g|].
  - destruct (delimiterFree s); [by destruct IH as [_ IH]; discriminate IH|].
    by rewrite andb_false_r.
  - destruct IH as [IH _]. rewrite (IH eq_refl), andb_true_r.
    by destruct (isParamDelimiter c).
Qed.


Lemma match_chop_decompose (s g : string) :
  match_chop s = Some g ->
  exists d rest, s = g +:+ String d rest /\ isParamDelimiter d = true
                 /\ allUnits notLineTerminator g = true /\ delimiterFree rest = true.
Proof.
  revert g. induction s as [|c s IH]; intros g; cbn; [done|].
  destruct (Js.isLineTerminator c) eqn:Hc; [done|].
  destruct (match_chop s) as [g'|] eqn:Hs.
  - intros [= <-]. destruct (IH g' eq_refl) as (d & rest & -> & Hd & Hg & Hrest).
    exists d, rest. repeat split; try done. cbn. unfold notLineTerminator at 1.
    by rewrite Hc.
  - destruct (isParamDelimiter c) eqn:Hd; [|done]. intros [= <-].
    exists c, s. repeat split; try done. by apply match_chop_None_iff.
Qed.

Lemma append_empty_r (s : string) : s +:+ EmptyString = s.
Proof.
  induction s as [|c s IH]; [done|].
  change (String c (s +:+ EmptyString) = String c s). by rewrite IH.
Qed.

Lemma prefix_append (g t : string) : String.prefix g (g +:+ t) = true.
Proof. apply prefix_spec. by exists t. Qed.

Lemma prefix_before_delimiter (P g rest : string) (d : ascii) :
  allUnits notParamDelimiter P = true -> isParamDelimiter d = true ->
  String.prefix P (g +:+ String d rest) = String.prefix P g.
Proof.
  intros HP Hd. revert g. induction P as [|a P IH]; intros g.
  - by destruct g.
  - cbn in HP. apply andb_true_iff in HP as [Ha HP]. destruct g as [|b g].
    + change (String.prefix (String a P) (String d rest) = false). cbn.
      destruct (ascii_dec a d) as [->|]; [|done].
      unfold notParamDelimiter in Ha. by rewrite Hd in Ha.
    + change (String.prefix (String a P) (String b (g +:+ String d rest))
              = String.prefix (String a P) (String b g)). cbn.
      destruct (ascii_dec a b); [by apply IH|done].
Qed.

(** X10: the class that [contentType] gives to a list of headers is the
    class of the raw value of its content-type header: the parameters
    that [getDocumentType] cuts off never change it. It is [json] for a
    value that starts with application/json, [text] for another value
    that starts with text/, and [other] for any other value and when
    the header is missing or empty. *)
Theorem contentType_ignores_parameters (hs : list Header.t) :
  contentType hs
  = classOfValue (Js.or_else (findHeader (Some hs) "content-type") "unknown")
  /\ (findHeader (Some hs) "content-type" = None -> contentType hs = ContentType.other)
  /\ (findHeader (Some hs) "content-type" = Some "" -> contentType hs = ContentType.other).
Proof.
  assert (Hmain : contentType hs
    = classOfValue (Js.or_else (findHeader (Some hs) "content-type") "unknown")).
  { unfold contentType, getDocumentType, classOfValue.
    set (v := Js.or_else (findHeader (Some hs) "content-type") "unknown").
    destruct (match_chop v) as [g|] eqn:Hchop; [|done].
    destruct (match_chop_decompose v g Hchop) as (d & rest & Hv & Hd & _ & _).
    unfold Js.or_else. destruct (Js.truthy g); [|done].
    rewrite Hv, !prefix_before_delimiter by done. done. }
  split; [exact Hmain|]. split; intros H; rewrite Hmain, H; reflexivity.
Qed.

(** A json value with two parameters. *)
Lemma contentType_ignores_parameters_witness :
  contentType [Header.mk "Content-Type" "application/json; charset=utf-8; x=1"]
  = classOfValue "application/json; charset=utf-8; x=1".
Proof.
  exact (proj1 (contentType_ignores_parameters
                  [Header.mk "Content-Type" "application/json; charset=utf-8; x=1"])).
Defined.

(** X11: the document type is never the empty string: it is the word
    unknown when the content-type header is missing or empty, and
    otherwise a non-empty prefix of the value of that header. *)
Theorem getDocumentType_is_a_prefix (hs : list Header.t) :
  getDocumentType hs <> ""
  /\ (findHeader (Some hs) "content-type" = None -> getDocumentType hs = "unknown")
  /\ (findHeader (Some hs) "content-type" = Some "" -> getDocumentType hs = "unknown")
  /\ (forall v, findHeader (Some hs) "content-type" = Some v -> v <> "" ->
        String.prefix (getDocumentType hs) v = true).
Proof.
  assert (Hpre : forall v, v <> "" ->
            Js.or_else (match_chop v) v <> ""
            /\ String.prefix (Js.or_else (match_chop v) v) v = true).
  { intros v Hv. assert (Hvv : String.prefix v v = true)
      by (apply prefix_spec; exists EmptyString; by rewrite append_empty_r).
    destruct (match_chop v) as [g|] eqn:Hchop; [|done].
    destruct (match_chop_decompose v g Hchop) as (d & rest & Hdec & _).
    unfold Js.or_else. destruct g; [done|]. cbn [Js.truthy]. split; [done|].
    rewrite Hdec. apply prefix_append. }
  unfold getDocumentType.
  destruct (findHeader (Some hs) "content-type") as [[|c v]|] eqn:Hf; cbn [Js.or_else Js.truthy].
  - repeat split; try done. intros v [= <-]. done.
  - destruct (Hpre (String c v)) as [Hne Hp]; [done|].
    repeat split; try done. intros v' [= <-] _. exact Hp.
  - repeat split; try done.
Qed.

(** A value with two parameters. *)
Lemma getDocumentType_is_a_prefix_witness :
  String.prefix
    (getDocumentType [Header.mk "content-type" "text/html; charset=utf-8; boundary=x"])
    "text/html; charset=utf-8; boundary=x" = true.
Proof.
  apply (proj2 (proj2 (proj2 (getDocumentType_is_a_prefix
    [Header.mk "content-type" "text/html; charset=utf-8; boundary=x"])))).
  - reflexivity.
  - discriminate.
Defined.



(** ** Splitting at slashes: the name and the type *)

Lemma split_nonempty (sep : ascii) (s : string) : Js.split sep s <> [].
Proof.
  destruct s as [|c s]; cbn; [done|].
  destruct (Ascii.eqb c sep); [done|]. by destruct (Js.split sep s).
Qed.

Lemma split_at_separator (sep : ascii) (x t : string) :
  Js.split sep (x +:+ String sep t) = Js.split sep x ++ Js.split sep t.
Proof.
  induction x as [|c x IH].
  - change (Js.split sep (String sep t) = [EmptyString] ++ Js.split sep t).
    cbn. by rewrite Ascii.eqb_refl.
  - change (Js.split sep (String c (x +:+ String sep t))
            = Js.split sep (String c x) ++ Js.split sep t).
    cbn. rewrite IH. destruct (Ascii.eqb c sep); [done|].
    pose proof (split_nonempty sep x). by destruct (Js.split sep x).
Qed.

Lemma split_without_separator (sep : ascii) (a : string) :
  allUnits (fun c => negb (Ascii.eqb c sep)) a = true -> Js.split sep a = [a].
Proof.
  induction a as [|c a IH]; cbn; [done|]. rewrite andb_true_iff. intros [Hc Ha].
  apply negb_true_iff in Hc. by rewrite Hc, (IH Ha).
Qed.

Lemma segments_of_slashes (s : string) :
  allUnits isSlash s = true -> List.filter Js.truthy (Js.split "/" s) = [].
Proof.
  induction s as [|c s IH]; cbn; [done|]. rewrite andb_true_iff. intros [Hc Hs].
  unfold isSlash in Hc. rewrite Hc. cbn. by apply IH.
Qed.

Lemma segments_of_last (seg slashes : string) :
  seg <> "" -> allUnits notSlash seg = true -> allUnits isSlash slashes = true ->
  List.filter Js.truthy (Js.split "/" (seg +:+ slashes)) = [seg].
Proof.
  intros Hne Hseg Hsl. assert (Ht : Js.truthy seg = true) by (by destruct seg).
  destruct slashes as [|c sl].
  - rewrite append_empty_r, (split_without_separator "/" seg Hseg). cbn. by rewrite Ht.
  - cbn in Hsl. apply andb_true_iff in Hsl as [Hc Hsl].
    unfold isSlash in Hc. apply Ascii.eqb_eq in Hc as ->.
    rewrite split_at_separator, List.filter_app, (split_without_separator "/" seg Hseg).
    rewrite (segments_of_slashes sl Hsl). cbn. by rewrite Ht.
Qed.

Lemma lastSegment_of_last (seg slashes : string) :
  seg <> "" -> allUnits notSlash seg = true -> allUnits isSlash slashes = true ->
  lastSegment (seg +:+ slashes) = seg
  /\ forall pre, lastSegment (pre +:+ String "/" (seg +:+ slashes)) = seg.
Proof.
  intros Hne Hseg Hsl. assert (Ht : Js.truthy seg = true) by (by destruct seg).
  pose proof (segments_of_last seg slashes Hne Hseg Hsl) as Hlast.
  unfold lastSegment. split.
  - rewrite Hlast. cbn. by rewrite Ht.
  - intros pre. rewrite split_at_separator, List.filter_app, Hlast, last_snoc.
    cbn. by rewrite Ht.
Qed.

(** X13: the name of a url is the last segment of its pathname that is
    not empty: slashes at the end are skipped, and what stands before
    the last segment does not matter. The name is the empty string when
    the pathname is made of slashes only, and [name] throws exactly when
    the url does not parse. *)
Theorem name_is_the_last_segment (new_URL : string -> option URL.t) (url : string) :
  (new_URL url = None -> name new_URL url = Throw TypeError)
  /\ (forall u, new_URL url = Some u ->
        (allUnits isSlash (URL.pathname u) = true -> name new_URL url = Ok "")
        /\ (forall seg slashes,
              seg <> "" -> allUnits notSlash seg = true ->
              allUnits isSlash slashes = true ->
              (URL.pathname u = seg +:+ slashes -> name new_URL url = Ok seg)
              /\ (forall pre,
                    URL.pathname u = pre +:+ String "/" (seg +:+ slashes) ->
                    name new_URL url = Ok seg))).
Proof.
  unfold name, parse. split.
  - by intros ->.
  - intros u ->. result_simpl. split.
    + intros Hsl. by rewrite (segments_of_slashes _ Hsl).
    + intros seg slashes Hne Hseg Hsl.
      destruct (lastSegment_of_last seg slashes Hne Hseg Hsl) as [H1 H2].
      unfold lastSegment in H1, H2. split.
      * intros ->. by rewrite H1.
      * intros pre ->. by rewrite H2.
Qed.

(** The name of a directory url. *)
Lemma name_is_the_last_segment_witness :
  name PlainURL.parse "https://a.test/static/fonts//" = Ok "fonts".
Proof.
  destruct (name_is_the_last_segment PlainURL.parse "https://a.test/static/fonts//")
    as [_ H].
  destruct (H {| URL.host := "a.test"; URL.pathname := "/static/fonts//";
                 URL.searchParams := [] |} eq_refl) as [_ Hseg].
  apply (proj2 (Hseg "fonts" "//" ltac:(discriminate) eq_refl eq_refl) "/static").
  reflexivity.
Defined.

(** X14: the type derived from a document type. A document type with
    no slash is its own type. Otherwise the type is what stands between
    the first slash and the second one (or the end), and not all that
    follows the first slash; when nothing stands there, the type is the
    whole document type. The type of a non-empty document type is never
    empty. *)
Theorem typeOf_is_the_second_segment (a b rest : string) :
  allUnits notSlash a = true -> allUnits notSlash b = true ->
  typeOf a = a
  /\ (b <> "" ->
      typeOf (a +:+ String "/" b) = b
      /\ typeOf (a +:+ String "/" (b +:+ String "/" rest)) = b)
  /\ typeOf (a +:+ String "/" EmptyString) = a +:+ String "/" EmptyString
  /\ typeOf (a +:+ String "/" (String "/" rest)) = a +:+ String "/" (String "/" rest)
  /\ (forall d, d <> "" -> typeOf d <> "").
Proof.
  intros Ha Hb. unfold typeOf.
  pose proof (split_without_separator "/" a Ha) as Hsa.
  pose proof (split_without_separator "/" b Hb) as Hsb.
  split; [by rewrite Hsa|]. split; [|split; [|split]].
  - intros Hne. assert (Ht : Js.truthy b = true) by (by destruct b).
    rewrite !split_at_separator, Hsa, Hsb. cbn. by rewrite Ht.
  - rewrite split_at_separator, Hsa. reflexivity.
  - rewrite split_at_separator, Hsa. cbn. reflexivity.
  - intros d Hd. destruct (Js.split "/" d !! 1%nat) as [[|c t]|]; cbn; try done.
Qed.

(** The type of an svg image and of a type with a suffix after a second
    slash. *)
Lemma typeOf_is_the_second_segment_witness :
  typeOf "image/svg+xml" = "svg+xml" /\ typeOf "a/b/c" = "b".
Proof.
  destruct (typeOf_is_the_second_segment "image" "svg+xml" "" eq_refl eq_refl)
    as (_ & H1 & _).
  destruct (typeOf_is_the_second_segment "a" "b" "c" eq_refl eq_refl) as (_ & H2 & _).
  split; [apply H1|apply H2]; discriminate.
Defined.

(** ** Decoding base64 *)

Lemma get_lookup (s : string) (i : nat) :
  String.get i s = list_ascii_of_string s !! i.
Proof.
  revert i. induction s as [|c s IH]; intros [|i]; cbn; done.
Qed.

Lemma length_list_ascii (s : string) :
  length (list_ascii_of_string s) = String.length s.
Proof. induction s as [|c s IH]; cbn; congruence. Qed.

(** The loop of [base64ToArrayBuffer] after [k] rounds: the first [k]
    slots hold the codes of the first [k] units, the others are 0. *)
Lemma fill_loop (s : string) (k : nat) :
  k <= String.length s ->
  fold_left (fun bytes i => storeUint8 bytes i (charCodeAt s i))
    (seq 0 k) (replicate (String.length s) 0%N)
  = map N_of_ascii (take k (list_ascii_of_string s))
    ++ replicate (String.length s - k) 0%N.
Proof.
  induction k as [|k IH]; intros Hk.
  - cbn. by rewrite Nat.sub_0_r.
  - rewrite seq_S, fold_left_app, IH by lia. cbn [fold_left Nat.add].
    unfold storeUint8, charCodeAt. rewrite get_lookup.
    destruct (list_ascii_of_string s !! k) as [c|] eqn:Hc.
    2: { apply lookup_ge_None in Hc. rewrite length_list_ascii in Hc. lia. }
    rewrite (take_S_r _ _ c Hc), map_app, <- app_assoc. cbn [fmap option_fmap option_map default map].
    assert (Hlen : length (map N_of_ascii (take k (list_ascii_of_string s))) = k).
    { rewrite length_map, length_take, length_list_ascii. lia. }
    rewrite insert_app_r_alt by lia. rewrite Hlen, Nat.sub_diag.
    replace (String.length s - k) with (S (String.length s - S k)) by lia.
    cbn. rewrite N.mod_small by apply N_ascii_bounded. done.
Qed.

Lemma base64ToArrayBuffer_codes (base64 : string) :
  base64ToArrayBuffer base64
  = (fun s => map N_of_ascii (list_ascii_of_string s)) <$> Base64.atob base64.
Proof.
  unfold base64ToArrayBuffer. destruct (Base64.atob base64) as [s|]; [|done]. cbn.
  rewrite fill_loop by lia. rewrite Nat.sub_diag, app_nil_r.
  by rewrite <- length_list_ascii, firstn_all.
Qed.

Lemma below_64 (P : N -> bool) :
  forallb P (map N.of_nat (seq 0 64)) = true -> forall n, (n < 64)%N -> P n = true.
Proof.
  intros H n Hn. rewrite forallb_forall in H. apply H.
  apply in_map_iff. exists (N.to_nat n). split; [lia|]. apply in_seq. lia.
Qed.

Lemma sextet_alphabetUnit (n : N) :
  (n < 64)%N -> Base64.sextet (alphabetUnit n) = Some n.
Proof.
  intros Hn.
  apply (below_64 (fun n => bool_decide (Base64.sextet (alphabetUnit n) = Some n)))
    in Hn; [by apply bool_decide_eq_true in Hn|by vm_compute].
Qed.

Lemma alphabetUnit_plain (n : N) :
  (n < 64)%N ->
  Base64.isWhitespace (alphabetUnit n) = false /\ alphabetUnit n <> "="%char.
Proof.
  intros Hn.
  apply (below_64 (fun n => negb (Base64.isWhitespace (alphabetUnit n))
                            && negb (Ascii.eqb (alphabetUnit n) "="))) in Hn;
    [|by vm_compute].
  apply andb_true_iff in Hn as [H1 H2]. apply negb_true_iff in H1, H2.
  split; [done|]. by apply Ascii.eqb_neq.
Qed.

Lemma sextet_bounded (c : ascii) (n : N) : Base64.sextet c = Some n -> (n < 64)%N.
Proof.
  unfold Base64.sextet.
  repeat match goal with
         | |- context [if ?b then _ else _] => destruct b eqn:?
         end; intros [= <-]; try lia;
    repeat match goal with
           | H : (_ && _) = true |- _ => apply andb_true_iff in H as [? ?]
           | H : (_ <=? _)%N = true |- _ => apply N.leb_le in H
           end; lia.
Qed.

Lemma list_ind3 {A} (P : list A -> Prop) :
  P [] -> (forall a, P [a]) -> (forall a b, P [a; b]) ->
  (forall a b c l, P l -> P (a :: b :: c :: l)) -> forall l, P l.
Proof.
  intros H0 H1 H2 H3 l.
  assert (H : P l /\ (forall a, P (a :: l)) /\ (forall a b, P (a :: b :: l))).
  { induction l as [|x l (IH0 & IH1 & IH2)]; [done|]. repeat split; auto. }
  apply H.
Qed.

Lemma list_ind4 {A} (P : list A -> Prop) :
  P [] -> (forall a, P [a]) -> (forall a b, P [a; b]) -> (forall a b c, P [a; b; c]) ->
  (forall a b c d l, P l -> P (a :: b :: c :: d :: l)) -> forall l, P l.
Proof.
  intros H0 H1 H2 H3 H4 l.
  assert (H : P l /\ (forall a, P (a :: l)) /\ (forall a b, P (a :: b :: l))
              /\ (forall a b c, P (a :: b :: c :: l))).
  { induction l as [|x l (IH0 & IH1 & IH2 & IH3)]; [done|]. repeat split; auto. }
  apply H.
Qed.

Lemma pack3 (a b c : N) :
  ((((a / 4) * 64 + ((a mod 4) * 16 + b / 16)) * 64 + ((b mod 16) * 4 + c / 64)) * 64
   + c mod 64 = a * 65536 + b * 256 + c)%N.
Proof.
  pose proof (N.div_mod' a 4). pose proof (N.div_mod' b 16).
  pose proof (N.div_mod' c 64). lia.
Qed.

Lemma unpack3 (a b c : N) :
  (a < 256 -> b < 256 -> c < 256 ->
   (a * 65536 + b * 256 + c) / 65536 = a
   /\ ((a * 65536 + b * 256 + c) / 256) mod 256 = b
   /\ (a * 65536 + b * 256 + c) mod 256 = c)%N.
Proof.
  intros Ha Hb Hc. split; [|split].
  - symmetry. apply N.div_unique with (b * 256 + c)%N; lia.
  - assert (((a * 65536 + b * 256 + c) / 256 = a * 256 + b)%N) as ->
      by (symmetry; apply N.div_unique with c; lia).
    symmetry. apply N.mod_unique with a; lia.
  - symmetry. apply N.mod_unique with (a * 256 + b)%N; lia.
Qed.

Lemma sextetsOf_bounded (bytes : list N) :
  Forall (fun b => (b < 256)%N) bytes -> Forall (fun x => (x < 64)%N) (sextetsOf bytes).
Proof.
  induction bytes as [|a|a b|a b c l IH] using list_ind3; cbn [sextetsOf]; intros H.
  - constructor.
  - apply Forall_cons in H as [Ha _].
    pose proof (N.div_mod' a 4). pose proof (N.mod_upper_bound a 4).
    repeat constructor; lia.
  - apply Forall_cons in H as [Ha H]. apply Forall_cons in H as [Hb _].
    pose proof (N.div_mod' a 4). pose proof (N.mod_upper_bound a 4).
    pose proof (N.div_mod' b 16). pose proof (N.mod_upper_bound b 16).
    repeat constructor; lia.
  - apply Forall_cons in H as [Ha H]. apply Forall_cons in H as [Hb H].
    apply Forall_cons in H as [Hc H].
    pose proof (N.div_mod' a 4). pose proof (N.mod_upper_bound a 4).
    pose proof (N.div_mod' b 16). pose proof (N.mod_upper_bound b 16).
    pose proof (N.div_mod' c 64). pose proof (N.mod_upper_bound c 64).
    repeat (constructor; [lia|]). by apply IH.
Qed.

Lemma bytesOf_sextetsOf (bytes : list N) :
  Forall (fun b => (b < 256)%N) bytes -> Base64.bytesOf (sextetsOf bytes) = bytes.
Proof.
  induction bytes as [|a|a b|a b c l IH] using list_ind3;
    cbn [sextetsOf Base64.bytesOf]; intros H.
  - done.
  - apply Forall_cons in H as [Ha _]. f_equal.
    pose proof (N.div_mod' a 4).
    symmetry. apply N.div_unique with 0%N; lia.
  - apply Forall_cons in H as [Ha H]. apply Forall_cons in H as [Hb _].
    assert ((((a / 4 * 64 + (a mod 4 * 16 + b / 16)) * 64 + b mod 16 * 4) / 4
             = a * 256 + b)%N) as ->.
    { pose proof (N.div_mod' a 4). pose proof (N.div_mod' b 16).
      symmetry. apply N.div_unique with 0%N; lia. }
    f_equal; [|f_equal].
    + symmetry. apply N.div_unique with b; lia.
    + symmetry. apply N.mod_unique with a; lia.
  - apply Forall_cons in H as [Ha H]. apply Forall_cons in H as [Hb H].
    apply Forall_cons in H as [Hc H]. rewrite pack3.
    destruct (unpack3 a b c Ha Hb Hc) as (-> & -> & ->). by rewrite IH.
Qed.

Lemma bytesOf_bounded (l : list N) :
  Forall (fun x => (x < 64)%N) l -> Forall (fun b => (b < 256)%N) (Base64.bytesOf l).
Proof.
  induction l as [|a|a b|a b c|a b c d l IH] using list_ind4;
    cbn [Base64.bytesOf]; intros H.
  - constructor.
  - constructor.
  - apply Forall_cons in H as [Ha H]. apply Forall_cons in H as [Hb _].
    repeat constructor. apply N.Div0.div_lt_upper_bound. lia.
  - apply Forall_cons in H as [Ha H]. apply Forall_cons in H as [Hb H].
    apply Forall_cons in H as [Hc _].
    repeat constructor; [|by apply N.mod_upper_bound].
    do 2 apply N.Div0.div_lt_upper_bound. lia.
  - apply Forall_cons in H as [Ha H]. apply Forall_cons in H as [Hb H].
    apply Forall_cons in H as [Hc H]. apply Forall_cons in H as [Hd H].
    constructor; [apply N.Div0.div_lt_upper_bound; lia|].
    repeat (constructor; [by apply N.mod_upper_bound|]). by apply IH.
Qed.

Lemma bytesOf_length (l : list N) :
  length l mod 4 <> 1 -> length (Base64.bytesOf l) = 3 * length l / 4.
Proof.
  induction l as [|a|a b|a b c|a b c d l IH] using list_ind4;
    cbn [Base64.bytesOf length]; intros H; try done.
  rewrite IH by lia_div. lia_div.
Qed.

Lemma sextetsOf_length (bytes : list N) :
  length (sextetsOf bytes) mod 4 <> 1
  /\ (length (sextetsOf bytes) + length (paddingOf bytes)) mod 4 = 0.
Proof.
  induction bytes as [|a|a b|a b c l [IH1 IH2]] using list_ind3; try done.
  assert (Hpad : paddingOf (a :: b :: c :: l) = paddingOf l).
  { unfold paddingOf. cbn [length].
    by replace (S (S (S (length l))) mod 3) with (length l mod 3) by lia_div. }
  rewrite Hpad. cbn [sextetsOf length]. split; lia_div.
Qed.

Lemma removeWhitespace_plain (l : list ascii) :
  Forall (fun c => Base64.isWhitespace c = false) l -> Base64.removeWhitespace l = l.
Proof.
  unfold Base64.removeWhitespace. induction 1 as [|c l Hc _ IH]; [done|].
  cbn. by rewrite Hc, IH.
Qed.

Lemma stripPadding_none (body : list ascii) :
  Forall (fun c => Base64.isPad c = false) body -> Base64.stripPadding body = body.
Proof.
  intros H. unfold Base64.stripPadding.
  destruct (length body mod 4 =? 0)%nat; [|done].
  destruct (rev body) as [|c1 r] eqn:Hrev; [done|].
  assert (Hc1 : Base64.isPad c1 = false).
  { rewrite Forall_forall in H. apply H. apply list_elem_of_In, in_rev.
    rewrite Hrev. by left. }
  rewrite Hc1. by destruct r.
Qed.

Lemma stripPadding_some (body pad : list ascii) :
  Forall (fun c => Base64.isPad c = false) body ->
  pad = ["="%char] \/ pad = ["="; "="]%char ->
  (length body + length pad) mod 4 = 0 ->
  Base64.stripPadding (body ++ pad) = body.
Proof.
  intros H Hpad Hlen. unfold Base64.stripPadding.
  rewrite length_app, Hlen, rev_app_distr. cbn [Nat.eqb].
  assert (Hhead : forall c2 r, rev body = c2 :: r -> Base64.isPad c2 = false).
  { intros c2 r Hrev. rewrite Forall_forall in H. apply H.
    apply list_elem_of_In, in_rev. rewrite Hrev. by left. }
  pose proof (rev_involutive body) as Hinv.
  destruct Hpad as [->| ->].
  - change (rev ["="%char] ++ rev body) with ("="%char :: rev body).
    destruct (rev body) as [|c2 r] eqn:Hrev.
    + by rewrite <- Hinv.
    + change (Base64.isPad "=") with true. cbv iota.
      by rewrite (Hhead c2 r eq_refl).
  - change (rev ["="%char; "="%char] ++ rev body) with ("="%char :: "="%char :: rev body).
    change (Base64.isPad "=") with true. cbv iota. exact Hinv.
Qed.

Lemma mapM_sextet_encoded (l : list N) :
  Forall (fun x => (x < 64)%N) l -> mapM Base64.sextet (map alphabetUnit l) = Some l.
Proof.
  induction 1 as [|x l Hx _ IH]; [done|]. cbn [map mapM].
  rewrite (sextet_alphabetUnit x Hx), IH. done.
Qed.

Lemma mapM_sextet_None (l : list ascii) :
  mapM Base64.sextet l = None <-> Exists (fun c => Base64.sextet c = None) l.
Proof.
  induction l as [|c l IH]; cbn [mapM].
  - split; [done|]. by intros H; inversion H.
  - rewrite Exists_cons. destruct (Base64.sextet c) as [n|]; cbn.
    + destruct (mapM Base64.sextet l); cbn.
      * split; [done|]. intros [?|H]; [done|]. by apply IH in H.
      * split; [|done]. intros _. right. by apply IH.
    + split; [by left|done].
Qed.

Lemma mapM_sextet_bounded (l : list ascii) (ns : list N) :
  mapM Base64.sextet l = Some ns -> Forall (fun x => (x < 64)%N) ns.
Proof.
  revert ns. induction l as [|c l IH]; intros ns; cbn [mapM].
  - intros [= <-]. constructor.
  - destruct (Base64.sextet c) as [n|] eqn:Hc; cbn; [|done].
    destruct (mapM Base64.sextet l) as [ns'|]; cbn; [|done]. intros [= <-].
    constructor; [by apply sextet_bounded in Hc|by apply IH].
Qed.

Lemma mapM_sextet_length (l : list ascii) (ns : list N) :
  mapM Base64.sextet l = Some ns -> length ns = length l.
Proof.
  revert ns. induction l as [|c l IH]; intros ns; cbn [mapM].
  - by intros [= <-].
  - destruct (Base64.sextet c) as [n|]; cbn; [|done].
    destruct (mapM Base64.sextet l) as [ns'|]; cbn; [|done]. intros [= <-].
    cbn. by rewrite (IH ns').
Qed.

Lemma codes_of_bytes (bytes : list N) :
  Forall (fun b => (b < 256)%N) bytes ->
  map N_of_ascii (list_ascii_of_string (string_of_list_ascii (map ascii_of_N bytes)))
  = bytes.
Proof.
  intros H. rewrite list_ascii_of_string_of_list_ascii.
  induction H as [|b l Hb _ IH]; [done|]. cbn. by rewrite N_ascii_embedding, IH.
Qed.

Lemma base64ToArrayBuffer_decode (base64 : string) :
  base64ToArrayBuffer base64 = Base64.decode (list_ascii_of_string base64)
  /\ forall bytes, base64ToArrayBuffer base64 = Some bytes ->
       Forall (fun b => (b < 256)%N) bytes.
Proof.
  assert (Hb : forall bytes, Base64.decode (list_ascii_of_string base64) = Some bytes ->
                             Forall (fun b => (b < 256)%N) bytes).
  { unfold Base64.decode. intros bytes.
    destruct (_ =? 1)%nat; [done|].
    destruct (mapM Base64.sextet _) as [ns|] eqn:Hns; [|done]. intros [= <-].
    apply bytesOf_bounded. by apply mapM_sextet_bounded in Hns. }
  assert (Heq : base64ToArrayBuffer base64 = Base64.decode (list_ascii_of_string base64)).
  { rewrite base64ToArrayBuffer_codes. unfold Base64.atob.
    destruct (Base64.decode (list_ascii_of_string base64)) as [bytes|] eqn:Hd; [|done].
    cbn. by rewrite codes_of_bytes by by apply Hb. }
  split; [exact Heq|]. intros bytes. rewrite Heq. apply Hb.
Qed.

Lemma encoded_units_plain (bytes : list N) (padded : bool) :
  Forall (fun b => (b < 256)%N) bytes ->
  Forall (fun c => Base64.isPad c = false) (map alphabetUnit (sextetsOf bytes))
  /\ Forall (fun c => Base64.isWhitespace c = false)
       (map alphabetUnit (sextetsOf bytes) ++ (if padded then paddingOf bytes else [])).
Proof.
  intros H. apply sextetsOf_bounded in H.
  assert (Hpad : Forall (fun c => Base64.isWhitespace c = false)
                   (if padded then paddingOf bytes else [])).
  { destruct padded; [|constructor]. unfold paddingOf.
    destruct (length bytes mod 3) as [|[|[|?]]]; by repeat constructor. }
  split; [|apply Forall_app; split; [|exact Hpad]].
  - induction H as [|x l Hx _ IH]; [constructor|]. cbn. constructor; [|done].
    apply Ascii.eqb_neq. by apply alphabetUnit_plain.
  - clear Hpad. induction H as [|x l Hx _ IH]; [constructor|]. cbn. constructor; [|done].
    by apply alphabetUnit_plain.
Qed.

(** X15: [base64ToArrayBuffer] undoes the standard base64 encoding: for
    every sequence of bytes, it returns these bytes on their encoding,
    whether the encoding ends with its padding signs or leaves them
    out. *)
Theorem base64ToArrayBuffer_decodes_encoding (padded : bool) (bytes : list N) :
  Forall (fun b => (b < 256)%N) bytes ->
  base64ToArrayBuffer (encodeBase64 padded bytes) = Some bytes.
Proof.
  intros H. rewrite (proj1 (base64ToArrayBuffer_decode _)).
  unfold encodeBase64. rewrite list_ascii_of_string_of_list_ascii.
  destruct (encoded_units_plain bytes padded H) as [Hnopad Hnows].
  destruct (sextetsOf_length bytes) as [Hlen1 Hlen0].
  unfold Base64.decode. rewrite (removeWhitespace_plain _ Hnows).
  assert (Hstrip : Base64.stripPadding
            (map alphabetUnit (sextetsOf bytes) ++ (if padded then paddingOf bytes else []))
          = map alphabetUnit (sextetsOf bytes)).
  { destruct padded; [|by rewrite app_nil_r, stripPadding_none].
    rewrite <- (length_map alphabetUnit) in Hlen0.
    revert Hlen0. unfold paddingOf.
    destruct (length bytes mod 3) as [|[|[|?]]]; intros Hlen0;
      try (by rewrite app_nil_r, stripPadding_none);
      apply stripPadding_some; auto. }
  rewrite Hstrip, length_map.
  assert (Hne : Nat.eqb (length (sextetsOf bytes) mod 4) 1 = false)
    by (by apply Nat.eqb_neq).
  rewrite Hne, mapM_sextet_encoded by by apply sextetsOf_bounded.
  cbn. by rewrite bytesOf_sextetsOf.
Qed.

(** Four bytes, whose encoding ends with two padding signs. *)
Lemma base64ToArrayBuffer_decodes_encoding_witness :
  base64ToArrayBuffer "/+8AAQ==" = Some [255; 239; 0; 1]%N.
Proof.
  apply (base64ToArrayBuffer_decodes_encoding true [255; 239; 0; 1]%N).
  repeat constructor.
Defined.

(** X16: when [base64ToArrayBuffer] throws and how much it returns. Let
    the data units of the input be what is left of it without its
    whitespace and without the one or two padding signs that end an
    input of a length divisible by four. The call throws exactly when
    the number of data units leaves the remainder one modulo four, or
    one of them is outside the base64 alphabet. Otherwise it returns
    three bytes for every four data units, rounded down, each of them
    below 256. *)
Theorem base64ToArrayBuffer_result (base64 : string) :
  (base64ToArrayBuffer base64 = None <->
     length (dataUnits base64) mod 4 = 1
     \/ Exists (fun c => Base64.sextet c = None) (dataUnits base64))
  /\ (forall bytes, base64ToArrayBuffer base64 = Some bytes ->
        length bytes = 3 * length (dataUnits base64) / 4
        /\ Forall (fun b => (b < 256)%N) bytes).
Proof.
  destruct (base64ToArrayBuffer_decode base64) as [Heq Hbound].
  split.
  - rewrite Heq. unfold Base64.decode. fold (dataUnits base64).
    destruct (Nat.eqb_spec (length (dataUnits base64) mod 4) 1) as [H1|H1].
    + split; [by left|done].
    + destruct (mapM Base64.sextet (dataUnits base64)) as [ns|] eqn:Hns; cbn.
      * split; [done|]. intros [?|Hex]; [done|].
        apply mapM_sextet_None in Hex. congruence.
      * split; [|done]. intros _. right. by apply mapM_sextet_None.
  - intros bytes Hsome. split; [|by apply Hbound].
    rewrite Heq in Hsome. unfold Base64.decode in Hsome.
    fold (dataUnits base64) in Hsome.
    destruct (Nat.eqb_spec (length (dataUnits base64) mod 4) 1) as [H1|H1]; [done|].
    destruct (mapM Base64.sextet (dataUnits base64)) as [ns|] eqn:Hns; [|done].
    injection Hsome as <-. apply mapM_sextet_length in Hns.
    rewrite <- Hns in *. by apply bytesOf_length.
Qed.

(** ** The events behind a summary *)

(** X17: apart from the ids that make the grouping throw, the pipeline
    reads the events only through the first event of each kind of each
    record: two event lists that agree on these, and of which either
    both or neither hold an id that is a property name of
    [Object.prototype], give the same result, whatever else they hold
    and in whatever order. *)
Theorem pipeline_reads_first_events (new_URL : string -> option URL.t)
    (requests : list RequestInfo.t) (events1 events2 : list EventInfo)
    (types : gset RequestType.t) :
  inheritedId events1 = inheritedId events2 ->
  (forall r k, In r requests ->
     List.find (isOf (RequestInfo.id r) k) events1
     = List.find (isOf (RequestInfo.id r) k) events2) ->
  partialRequestsToCompleteSummaries new_URL requests events1 types
  = partialRequestsToCompleteSummaries new_URL requests events2 types.
Proof.
  intros Hinh H. unfold partialRequestsToCompleteSummaries.
  by rewrite (completeSummaries_ext_on new_URL requests events1 events2).
Qed.

(** The events of two requests, in two orders. *)
Lemma pipeline_reads_first_events_witness :
  partialRequestsToCompleteSummaries PlainURL.parse [recordAt "2" "7"] brokenAndSound ∅
  = partialRequestsToCompleteSummaries PlainURL.parse [recordAt "2" "7"] soundAndBroken ∅.
Proof.
  apply (pipeline_reads_first_events PlainURL.parse [recordAt "2" "7"]
           brokenAndSound soundAndBroken ∅).
  - reflexivity.
  - intros r k [<-|[]]. by destruct k.
Defined.

Lemma summarize_first_events (new_URL : string -> option URL.t)
    (events : list EventInfo) (r : RequestInfo.t) (s : RequestSummary.t) :
  summarize new_URL (attach (bucketsOf events) r) = Ok s ->
  summaryOfFirstEvents events r s.
Proof.
  unfold summaryOfFirstEvents. rewrite <- !lookup_bucketsOf. rewrite attach_lookup.
  unfold summarize, host, name, queryParams, parse.
  destruct (eventsToMap _) as [[[i p t o]|] rb qb [[i' p' t' h]|]]; try done. cbn.
  destruct (new_URL (RequestOpenEvent.requestUrl o)); result_simpl; [|done].
  intros [= <-]. cbn.
  exists (RequestEventInfo.mk i p t (Open o)),
         (RequestEventInfo.mk i' p' t' (ResponseHeaders h)), o, h.
  by repeat split.
Qed.

(** X18: whenever the summaries are derived, the summary of a complete
    record has the url, the method, the request headers and the start
    time of the first request event of that record in the input, and
    the status, the response headers and the end time of its first
    response event; later events of these kinds change nothing. *)
Theorem summaries_come_from_first_events (new_URL : string -> option URL.t)
    (requests : list RequestInfo.t) (events : list EventInfo)
    (sums : list RequestSummary.t) :
  completeSummaries new_URL requests events = Ok sums ->
  Forall2 (summaryOfFirstEvents events) (List.filter (complete events) requests) sums.
Proof.
  rewrite completeSummaries_unfold. destruct (inheritedId events); [done|]. intros H.
  apply mapM_Ok_Forall2 in H.
  remember (List.filter (complete events) requests) as rs eqn:Hrs. clear Hrs.
  revert sums H. induction rs as [|r rs IH]; intros sums H; inversion H; subst.
  - constructor.
  - constructor; [by apply (summarize_first_events new_URL)|by apply IH].
Qed.

(** The three exchanges of [threeExchanges]. *)
Lemma summaries_come_from_first_events_witness :
  exists sums,
    completeSummaries PlainURL.parse threeRecords threeExchanges = Ok sums
    /\ Forall2 (summaryOfFirstEvents threeExchanges)
         (List.filter (complete threeExchanges) threeRecords) sums.
Proof.
  destruct (completeSummaries PlainURL.parse threeRecords threeExchanges)
    as [sums|e] eqn:Hsums; [|discriminate].
  exists sums. split; [reflexivity|].
  exact (summaries_come_from_first_events PlainURL.parse threeRecords threeExchanges
           sums Hsums).
Defined.

Lemma getDocumentType_nonempty (hs : list Header.t) : getDocumentType hs <> "".
Proof.
  unfold getDocumentType.
  set (v := Js.or_else (findHeader (Some hs) "content-type") "unknown").
  assert (Hv : v <> "").
  { unfold v, Js.or_else. by destruct (findHeader _ _) as [[|c s]|]. }
  unfold Js.or_else. destruct (match_chop v) as [[|c g]|]; by cbn.
Qed.

Lemma typeOf_nonempty (d : string) : d <> "" -> typeOf d <> "".
Proof.
  intros Hd. unfold typeOf. by destruct (Js.split "/" d !! 1%nat) as [[|c t]|].
Qed.

(** X19: every summary that the pipeline returns has a document type
    and a type that are not empty: the type filter always has a type to
    test. *)
Theorem output_types_are_nonempty (new_URL : string -> option URL.t)
    (requests : list RequestInfo.t) (events : list EventInfo)
    (types : gset RequestType.t) (out : list RequestSummary.t) :
  partialRequestsToCompleteSummaries new_URL requests events types = Ok out ->
  Forall (fun s => RequestSummary.documentType s <> ""
                   /\ RequestSummary.type s <> "") out.
Proof.
  intros H. apply output_of_rows in H as (rows & Hrows & Hperm).
  rewrite <- Hperm. apply List.Forall_forall. intros s Hs.
  apply filter_In in Hs as [Hs _].
  apply completeSummaries_each in Hrows. rewrite List.Forall_forall in Hrows.
  destruct (Hrows s Hs) as [row Hrow].
  apply summarize_consistent in Hrow as (Hd & Ht & _).
  assert (Hne : RequestSummary.documentType s <> "")
    by (rewrite Hd; apply getDocumentType_nonempty).
  split; [done|]. rewrite Ht. by apply typeOf_nonempty.
Qed.

(** The three exchanges of [threeExchanges]. *)
Lemma output_types_are_nonempty_witness :
  exists out,
    partialRequestsToCompleteSummaries PlainURL.parse threeRecords threeExchanges ∅
    = Ok out
    /\ Forall (fun s => RequestSummary.documentType s <> ""
                        /\ RequestSummary.type s <> "") out.
Proof.
  destruct (partialRequestsToCompleteSummaries PlainURL.parse threeRecords
              threeExchanges ∅) as [out|e] eqn:Hout; [|discriminate].
  exists out. split; [reflexivity|].
  exact (output_types_are_nonempty PlainURL.parse threeRecords threeExchanges ∅
           out Hout).
Defined.
